(** * onefilellm: source dispatch and web crawl

    A shallow embedding of the dispatcher and crawl engine of
    [onefilellm.py], together with the pieces of the Python standard
    library they lean on ([str] methods, [html.escape], [urllib.parse]).

    Conventions.
    - A Python [str] is a list of characters; a character is a code point
      in the range 0..255 (Rocq's [ascii]).
    - A Python call that may raise is a value of [result]: [Ok v] or
      [Raise msg], where [msg] is [str(e)] of the exception.
    - Everything the program obtains from outside (HTTP responses, PDF
      readers, the file system, handlers that only do I/O) is a field of a
      record of oracles, so every theorem holds for all behaviours of the
      outside world.
    - [print] is [rich.print] and the consoles are [rich] consoles: a
      message is read as markup, and printing it can raise.  Every message
      the code prints is given to a printer, an oracle that says whether
      printing it raises. *)

From Stdlib Require Import String Ascii List ZArith NArith Bool Lia Sorted DecimalString.
From stdpp Require Import base option list sorting gmap strings.
Import ListNotations.

(** ** Exceptions *)

Inductive result (A : Type) : Type :=
| Ok (a : A)
| Raise (msg : list ascii).
Arguments Ok {A} a.
Arguments Raise {A} msg.

Definition rbind {A B} (r : result A) (k : A -> result B) : result B :=
  match r with
  | Ok a => k a
  | Raise msg => Raise msg
  end.

Declare Scope result_scope.
Delimit Scope result_scope with result.
Notation "x <-! r ; k" := (rbind r (fun x => k))
  (at level 100, r at next level, right associativity) : result_scope.

(** ** Python [str] *)

Module PyStr.

Abbreviation str := (list ascii).

Definition py (s : string) : str := list_ascii_of_string s.
Arguments py s%_string.

Definition code (c : ascii) : N := N_of_ascii c.

Definition in_range (lo hi : N) (c : ascii) : bool :=
  ((lo <=? code c) && (code c <=? hi))%N.

Definition char_in (chars : str) (c : ascii) : bool :=
  existsb (Ascii.eqb c) chars.

(** [c.isspace()] on code points below 256. *)
Definition isspace (c : ascii) : bool :=
  in_range 9 13 c || in_range 28 32 c || (code c =? 133)%N || (code c =? 160)%N.

(** [c.isascii() and c.isalpha()]. *)
Definition is_ascii_alpha (c : ascii) : bool :=
  in_range 65 90 c || in_range 97 122 c.

(** [c.isdigit()] on code points below 256: 0-9 and the superscripts. *)
Definition isdigit_char (c : ascii) : bool :=
  in_range 48 57 c || (code c =? 178)%N || (code c =? 179)%N || (code c =? 185)%N.

(** [s.isdigit()]: non-empty and all digits. *)
Definition isdigit (s : str) : bool :=
  match s with
  | [] => false
  | _ => forallb isdigit_char s
  end.

(** [c.lower()] on code points below 256. *)
Definition lower_char (c : ascii) : ascii :=
  if in_range 65 90 c || (in_range 192 222 c && negb (code c =? 215)%N)
  then ascii_of_N (code c + 32)
  else c.

Definition lower (s : str) : str := map lower_char s.

(** [s.startswith(prefix)]. *)
Fixpoint startswith (s prefix : str) : bool :=
  match prefix, s with
  | [], _ => true
  | _ :: _, [] => false
  | p :: prefix', c :: s' => Ascii.eqb c p && startswith s' prefix'
  end.

(** [s.endswith(suffix)]. *)
Definition endswith (s suffix : str) : bool :=
  startswith (rev s) (rev suffix).

(** [sub in s]. *)
Fixpoint contains (s sub : str) : bool :=
  startswith s sub ||
  match s with
  | [] => false
  | _ :: s' => contains s' sub
  end.

(** [s.lstrip(chars)], [s.rstrip(chars)], with the character set as a
    predicate. *)
Fixpoint lstrip_if (p : ascii -> bool) (s : str) : str :=
  match s with
  | [] => []
  | c :: s' => if p c then lstrip_if p s' else s
  end.

Definition rstrip_if (p : ascii -> bool) (s : str) : str :=
  rev (lstrip_if p (rev s)).

(** [s.strip()]. *)
Definition strip (s : str) : str := rstrip_if isspace (lstrip_if isspace s).

(** [s.rstrip('/')]. *)
Definition rstrip_char (c : ascii) (s : str) : str :=
  rstrip_if (Ascii.eqb c) s.
Arguments rstrip_char c%_char s.

(** [s.replace(c, empty)] for a one-character [c]: every [c] is removed. *)
Definition remove_char (c : ascii) (s : str) : str :=
  List.filter (fun d => negb (Ascii.eqb d c)) s.

(** [s.find(c)] for a one-character [c]; [None] stands for -1. *)
Fixpoint find (c : ascii) (s : str) : option nat :=
  match s with
  | [] => None
  | d :: s' => if Ascii.eqb d c then Some 0 else S <$> find c s'
  end.
Arguments find c%_char s.

(** [s.find(c, start)]. *)
Definition find_from (c : ascii) (s : str) (start : nat) : option nat :=
  (fun i => start + i) <$> find c (drop start s).
Arguments find_from c%_char s start.

(** [s.rfind(c)]. *)
Fixpoint rfind (c : ascii) (s : str) : option nat :=
  match s with
  | [] => None
  | d :: s' =>
      match rfind c s' with
      | Some i => Some (S i)
      | None => if Ascii.eqb d c then Some 0 else None
      end
  end.
Arguments rfind c%_char s.

(** [s.split(c, 1)] when [c in s]: the text before and after the first
    occurrence. *)
Definition split_once (c : ascii) (s : str) : option (str * str) :=
  (fun i => (take i s, drop (S i) s)) <$> find c s.
Arguments split_once c%_char s.

(** [s.split(c)]. *)
Fixpoint split (c : ascii) (s : str) : list str :=
  match s with
  | [] => [[]]
  | d :: s' =>
      if Ascii.eqb d c then [] :: split c s'
      else match split c s' with
           | w :: ws => (d :: w) :: ws
           | [] => [[d]]
           end
  end.
Arguments split c%_char s.

(** [sep.join(parts)]. *)
Fixpoint join (sep : str) (parts : list str) : str :=
  match parts with
  | [] => []
  | [p] => p
  | p :: rest => p ++ sep ++ join sep rest
  end.

(** [str(n)] for a non-negative integer. *)
Definition str_of_nat (n : nat) : str :=
  py (NilEmpty.string_of_uint (Nat.to_uint n)).

(** [html.escape(s, quote=True)]. *)
Definition escape_char (c : ascii) : str :=
  if Ascii.eqb c "&" then py "&amp;"
  else if Ascii.eqb c "<" then py "&lt;"
  else if Ascii.eqb c ">" then py "&gt;"
  else if Ascii.eqb c "034" then py "&quot;"
  else if Ascii.eqb c "'" then py "&#x27;"
  else [c].

Definition html_escape (s : str) : str := flat_map escape_char s.

End PyStr.
Export PyStr.

(** ** [urllib.parse] (CPython 3.11) *)

Module UrlLib.

Record SplitResult := mkSplitResult {
  s_scheme : str; s_netloc : str; s_path : str; s_query : str; s_fragment : str
}.

Record ParseResult := mkParseResult {
  scheme : str; netloc : str; path : str; params : str; query : str;
  fragment : str
}.

Definition uses_netloc : list str :=
  [ []; py "ftp"; py "http"; py "gopher"; py "nntp"; py "telnet"; py "imap";
    py "wais"; py "file"; py "mms"; py "https"; py "shttp"; py "snews";
    py "prospero"; py "rtsp"; py "rtspu"; py "rsync"; py "svn"; py "svn+ssh";
    py "sftp"; py "nfs"; py "git"; py "git+ssh"; py "ws"; py "wss" ].

Definition uses_params : list str :=
  [ []; py "ftp"; py "hdl"; py "prospero"; py "http"; py "imap"; py "https";
    py "shttp"; py "rtsp"; py "rtspu"; py "sip"; py "sips"; py "mms";
    py "sftp"; py "tel" ].

Definition scheme_chars : str :=
  py "abcdefghijklmnopqrstuvwxyzABCDEFGHIJKLMNOPQRSTUVWXYZ0123456789+-.".

(** Leading C0 control characters and space, stripped by [urlsplit]. *)
Definition _WHATWG_C0_CONTROL_OR_SPACE (c : ascii) : bool := in_range 0 32 c.

(** Tab, carriage return and line feed, removed anywhere in the URL. *)
Definition _UNSAFE_URL_BYTES_TO_REMOVE : str := ["009"; "013"; "010"]%char.

Definition str_in (s : str) (l : list str) : bool := bool_decide (s ∈ l).

Definition _splitnetloc (url : str) (start : nat) : str * str :=
  let delim :=
    fold_left
      (fun delim c =>
         match find_from c url start with
         | Some wdelim => Nat.min delim wdelim
         | None => delim
         end)
      (py "/?#") (length url) in
  (drop start (take delim url), drop delim url).

Definition _splitparams (url : str) : str * str :=
  if char_in url "/" then
    match find_from ";" url (default 0 (rfind "/" url)) with
    | Some i => (take i url, drop (S i) url)
    | None => (url, [])
    end
  else
    match find ";" url with
    | Some i => (take i url, drop (S i) url)
    | None => (removelast url, url)
    end.

Section Parse.

(** [_check_bracketed_netloc]: validation of a bracketed host with the
    [ipaddress] module; [Some msg] when it raises [ValueError(msg)].
    [_checknetloc] never raises on code points below 256. *)
Variable check_bracketed_netloc : str -> option str.

Definition urlsplit (url : str) : result SplitResult :=
  let url := lstrip_if _WHATWG_C0_CONTROL_OR_SPACE url in
  let url := fold_left (fun u b => remove_char b u) _UNSAFE_URL_BYTES_TO_REMOVE url in
  let '(scheme, url) :=
    match find ":" url, url with
    | Some i, c0 :: _ =>
        if (0 <? i) && is_ascii_alpha c0
           && forallb (char_in scheme_chars) (take i url)
        then (lower (take i url), drop (S i) url)
        else ([], url)
    | _, _ => ([], url)
    end in
  (nu <-! (if bool_decide (take 2 url = py "//") then
             let '(netloc, url) := _splitnetloc url 2 in
             if (char_in netloc "[" && negb (char_in netloc "]"))
                || (char_in netloc "]" && negb (char_in netloc "["))
             then Raise (py "Invalid IPv6 URL")
             else if char_in netloc "[" && char_in netloc "]" then
               match check_bracketed_netloc netloc with
               | Some msg => Raise msg
               | None => Ok (netloc, url)
               end
             else Ok (netloc, url)
           else Ok ([], url));
   let '(netloc, url) := nu in
   let '(url, fragment) :=
     match split_once "#" url with
     | Some uf => uf
     | None => (url, [])
     end in
   let '(url, query) :=
     match split_once "?" url with
     | Some uq => uq
     | None => (url, [])
     end in
   Ok (mkSplitResult scheme netloc url query fragment))%result.

(** The steps of [urlsplit], named one by one for the proofs: removal of
    leading control characters and of unsafe characters, the scheme, the
    network location and its checks, the fragment and the query. *)
Definition prepare (url : str) : str :=
  fold_left (fun u b => remove_char b u) _UNSAFE_URL_BYTES_TO_REMOVE
            (lstrip_if _WHATWG_C0_CONTROL_OR_SPACE url).

Definition split_scheme (url : str) : str * str :=
  match find ":" url, url with
  | Some i, c0 :: _ =>
      if (0 <? i) && is_ascii_alpha c0
         && forallb (char_in scheme_chars) (take i url)
      then (lower (take i url), drop (S i) url)
      else ([], url)
  | _, _ => ([], url)
  end.

Definition split_netloc (url : str) : str * str :=
  if bool_decide (take 2 url = py "//") then _splitnetloc url 2 else ([], url).

Definition netloc_error (netloc : str) : option str :=
  if (char_in netloc "[" && negb (char_in netloc "]"))
     || (char_in netloc "]" && negb (char_in netloc "["))
  then Some (py "Invalid IPv6 URL")
  else if char_in netloc "[" && char_in netloc "]"
       then check_bracketed_netloc netloc
       else None.

Definition split_at (c : ascii) (url : str) : str * str :=
  match split_once c url with
  | Some parts => parts
  | None => (url, [])
  end.

Definition split_params (scheme url : str) : str * str :=
  if str_in scheme uses_params && char_in url ";"
  then _splitparams url
  else (url, []).

Definition urlparse (url : str) : result ParseResult :=
  (sr <-! urlsplit url;
   let '(url, params) :=
     if str_in (s_scheme sr) uses_params && char_in (s_path sr) ";"
     then _splitparams (s_path sr)
     else (s_path sr, []) in
   Ok (mkParseResult (s_scheme sr) (s_netloc sr) url params
                     (s_query sr) (s_fragment sr)))%result.

End Parse.

Definition nonempty (s : str) : bool :=
  match s with [] => false | _ => true end.

Definition urlunsplit (scheme netloc url query fragment : str) : str :=
  let url :=
    if nonempty netloc
       || (nonempty scheme && str_in scheme uses_netloc
           && negb (bool_decide (take 2 url = py "//")))
    then
      let url := if nonempty url && negb (bool_decide (take 1 url = py "/"))
                 then py "/" ++ url else url in
      py "//" ++ netloc ++ url
    else url in
  let url := if nonempty scheme then scheme ++ py ":" ++ url else url in
  let url := if nonempty query then url ++ py "?" ++ query else url in
  let url := if nonempty fragment then url ++ py "#" ++ fragment else url in
  url.

Definition urlunparse (p : ParseResult) : str :=
  let url := if nonempty (params p) then path p ++ py ";" ++ params p
             else path p in
  urlunsplit (scheme p) (netloc p) url (query p) (fragment p).

(** [ParseResult.geturl]. *)
Definition geturl (p : ParseResult) : str := urlunparse p.

(** [p._replace(fragment=f)] and [p._replace(scheme=s)]. *)
Definition replace_fragment (p : ParseResult) (f : str) : ParseResult :=
  mkParseResult (scheme p) (netloc p) (path p) (params p) (query p) f.

Definition replace_scheme (p : ParseResult) (s : str) : ParseResult :=
  mkParseResult s (netloc p) (path p) (params p) (query p) (fragment p).

End UrlLib.
Export UrlLib.

(** ** The crawl engine *)

Module Crawl.

Definition nl : str := ["010"%char].
Definition dq : str := ["034"%char].

(** [name="value"] inside a tag. *)
Definition attr (name value : str) : str := name ++ py "=" ++ dq ++ value ++ dq.

Definition escape_xml (text : str) : str := html_escape text.

(** *** Printing *)

(** [print] is [rich.print] and [console.print] that of a [rich] console:
    both read their message as markup and raise (a [MarkupError], for a
    closing tag that no tag opens) where the built-in [print] would not.
    A printer says, for a message, whether it is printed ([None]) or which
    exception printing it raises. *)
Abbreviation printer := (str -> option str).

Definition printing (outcome : option str) : result unit :=
  match outcome with
  | Some e => Raise e
  | None => Ok tt
  end.

(** [str(z)], [str(b)]. *)
Definition str_of_Z (z : Z) : str :=
  if (z <? 0)%Z then "-"%char :: str_of_nat (Z.to_nat (- z)) else str_of_nat (Z.to_nat z).

Definition str_of_bool (b : bool) : str := if b then py "True" else py "False".

(** *** PDF text extraction *)

(** What [page_obj.extract_text()] does for one page. *)
Inductive page_outcome :=
| PageText (page_text : str)
| PageRaise (page_e : str).

Definition no_pages_marker : str :=
  py "<e>PDF file has no pages or could not be read (possibly encrypted).</e>".

Definition no_text_marker : str :=
  py "<e>No text could be extracted from PDF.</e>".

(** Which [return] of [_extract_text_from_pdf_object] is taken: one of the
    two whole-document error markers, or the joined [text_list]. *)
Inductive pdf_extraction :=
| WholeDocumentError (marker : str)
| Extracted (text : str).

Section PdfText.

Variable print : printer.
Variable source_description : str.

Definition no_pages_warning : str :=
  py "  [bold yellow]Warning:[/bold yellow] PDF file has no pages or is encrypted: "
     ++ source_description.

Definition blank_page_note (i : nat) : str :=
  py "  [dim]No text extracted from page " ++ str_of_nat (i + 1) ++ py " of "
     ++ source_description ++ py " (blank/image-based).[/dim]".

Definition page_warning (i : nat) (page_e : str) : str :=
  py "  [bold yellow]Warning:[/bold yellow] Could not extract text from page "
     ++ str_of_nat (i + 1) ++ py " of " ++ source_description ++ py ": " ++ page_e.

Definition no_text_warning : str :=
  py "  [bold yellow]Warning:[/bold yellow] No text extracted from any page of PDF: "
     ++ source_description.

Definition page_error_marker (i : nat) (page_e : str) : str :=
  nl ++ py "<e>Error extracting text from page " ++ str_of_nat (i + 1)
     ++ py ": " ++ escape_xml page_e ++ py "</e>" ++ nl.

(** The [try] block for page [i] (0-based): what it appends to
    [text_list], or the exception that its handler catches (that of
    [extract_text], or that of the note printed for a page without
    text). *)
Definition page_attempt (i : nat) (page : page_outcome) : result (list str) :=
  match page with
  | PageText page_text =>
      if nonempty page_text then Ok [page_text]
      else (_ <-! printing (print (blank_page_note i)); Ok [])%result
  | PageRaise page_e => Raise page_e
  end.

(** One iteration of the loop over the pages: what page [i] contributes
    to [text_list], or the exception that the warning of the handler
    raises. *)
Definition pdf_page_entry (i : nat) (page : page_outcome) : result (list str) :=
  match page_attempt i page with
  | Ok entries => Ok entries
  | Raise page_e =>
      (_ <-! printing (print (page_warning i page_e));
       Ok [page_error_marker i page_e])%result
  end.

(** [text_list] after the pages from number [i] on. *)
Fixpoint pdf_text_list_from (i : nat) (pages : list page_outcome) : result (list str) :=
  match pages with
  | [] => Ok []
  | page :: pages' =>
      (entries <-! pdf_page_entry i page;
       later <-! pdf_text_list_from (S i) pages';
       Ok (entries ++ later))%result
  end.

Definition pdf_text_list (pages : list page_outcome) : result (list str) :=
  pdf_text_list_from 0 pages.

Definition extract_pdf (pages : list page_outcome) : result pdf_extraction :=
  match pages with
  | [] =>
      (_ <-! printing (print no_pages_warning);
       Ok (WholeDocumentError no_pages_marker))%result
  | _ =>
      (text_list <-! pdf_text_list pages;
       match text_list with
       | [] =>
           _ <-! printing (print no_text_warning);
           Ok (WholeDocumentError no_text_marker)
       | _ => Ok (Extracted (join (py " ") text_list))
       end)%result
  end.

Definition _extract_text_from_pdf_object (pages : list page_outcome) : result str :=
  (extraction <-! extract_pdf pages;
   Ok (match extraction with
       | WholeDocumentError marker => marker
       | Extracted text => text
       end))%result.

End PdfText.

(** *** The outside world of a crawl *)

(** [requests.get(url, timeout=30); raise_for_status()] in
    [process_web_pdf]: a [RequestException], or the Content-Type header of
    the response, the exception of writing the temporary file, if any, and
    what opening it with [PdfReader] gives. *)
Inductive pdf_fetch :=
| PdfRequestError (e : str)
| PdfResponse (content_type : option str) (write_error : option str)
              (reader : result (list page_outcome)).

(** [requests.get] of a page in the crawl loop: [GetRaised] when the
    request or [raise_for_status] raises; otherwise the Content-Type
    header and what BeautifulSoup extracts from the body (the text after
    removing non-content elements, and the [href] of every anchor that has
    one, in document order). *)
Inductive http_outcome :=
| GetRaised (e : str)
| GetResponse (content_type : option str) (soup : result (str * list str)).

Record world := mkWorld {
  check_bracketed_netloc : str -> option str;
  urljoin : str -> str -> result str;
  http_get : str -> http_outcome;
  fetch_pdf : str -> pdf_fetch;
  rich_print : printer
}.

Record config := mkConfig {
  base_url : str;
  max_depth : Z;
  include_pdfs : bool;
  ignore_epubs : bool
}.

(** A page of the output: [page_xml] is the string appended to
    [all_text_xml]; [page_url] and [page_depth] remember the frontier
    entry it was produced from. *)
Record page_record := mkPage {
  page_url : str;
  page_depth : Z;
  page_body : str;
  page_xml : str
}.

(** The variables of the loop.  [visit_log] is a ghost variable: the
    arguments of the calls [visited.add(...)], in order. *)
Record crawl_state := mkState {
  visited : gset str;
  to_visit : list (str * Z);
  pages : list page_record;
  visit_log : list str
}.

Inductive step_result :=
| Next (st : crawl_state)
| Stop
| Error (e : str).

Inductive status := Running | Finished | Raised (e : str).

Record crawl_result := mkResult {
  content : str;
  processed_urls : list str
}.

Section Engine.

Variable w : world.

Abbreviation parse := (urlparse (check_bracketed_netloc w)).

Definition is_same_domain (base new : str) : result bool :=
  (b <-! parse base;
   n <-! parse new;
   Ok (bool_decide (netloc b = netloc n)))%result.

(** [len(p.split('/')) if p else 0]. *)
Definition path_segments (p : str) : Z :=
  if nonempty p then Z.of_nat (length (split "/" p)) else 0.

Definition is_within_depth (base current : str) (max_depth : Z) : result bool :=
  (b <-! parse base;
   c <-! parse current;
   let base_p := rstrip_char "/" (path b) in
   let current_p := rstrip_char "/" (path c) in
   if negb (startswith current_p base_p) then Ok false
   else Ok (path_segments current_p - path_segments base_p <=? max_depth)%Z)%result.

Definition download_error (e : str) : str :=
  py "<error>Failed to download PDF: " ++ escape_xml e ++ py "</error>".

Definition processing_error (e : str) : str :=
  py "<error>Failed to process PDF: " ++ escape_xml e ++ py "</error>".

Definition not_pdf_error : str :=
  py "<error>Skipped non-PDF content reported at PDF URL.</error>".

(** [except Exception as e] of [process_web_pdf]. *)
Definition processing_handler (url e : str) : result str :=
  (_ <-! printing (rich_print w (py "  [bold red]Error processing PDF " ++ url
                                    ++ py ": " ++ e ++ py "[/bold red]"));
   Ok (processing_error e))%result.

(** An exception of the [try] block that is not a [RequestException] goes
    to [processing_handler]; an exception of a handler leaves the
    function. *)
Definition process_web_pdf (url : str) : result str :=
  match (_ <-! printing (rich_print w (py "  Downloading PDF: " ++ url));
         Ok (fetch_pdf w url))%result with
  | Raise e => processing_handler url e
  | Ok (PdfRequestError e) =>
      (_ <-! printing (rich_print w (py "  [bold red]Error downloading PDF " ++ url
                                        ++ py ": " ++ e ++ py "[/bold red]"));
       Ok (download_error e))%result
  | Ok (PdfResponse content_type write_error reader) =>
      match (if negb (contains (lower (default [] content_type)) (py "application/pdf"))
             then
               _ <-! printing (rich_print w
                       (py "  [bold yellow]Warning:[/bold yellow] URL doesn't report as PDF, skipping: "
                           ++ url));
               Ok not_pdf_error
             else
               _ <-! printing write_error;
               _ <-! printing (rich_print w (py "  Extracting text from PDF: " ++ url));
               pdf_pages <-! reader;
               _extract_text_from_pdf_object (rich_print w) url pdf_pages)%result with
      | Ok text => Ok text
      | Raise e => processing_handler url e
      end
  end.

(** Lines 596-597: the URL of a frontier entry without its fragment, with
    [http://] in front when it has no scheme. *)
Definition normalize (curr_url : str) : result str :=
  (parsed <-! parse curr_url;
   let clean_url := geturl (replace_fragment parsed []) in
   Ok (if nonempty (scheme parsed) then clean_url
       else py "http://" ++ clean_url))%result.

Variable cfg : config.

(** [content_to_add] of a PDF page, from what [process_web_pdf] returned. *)
Definition pdf_content_to_add (pdf_text_or_error : str) : str :=
  if nonempty pdf_text_or_error
     && startswith (strip pdf_text_or_error) (py "<e>")
  then pdf_text_or_error
  else escape_xml pdf_text_or_error.

(** The [try] block of the loop over the anchors, for one anchor: the
    frontier afterwards, or the exception that its handler catches. *)
Definition link_attempt (visited : gset str) (clean_url : str) (depth : Z)
    (to_visit : list (str * Z)) (new_raw : str) : result (list (str * Z)) :=
  (if nonempty new_raw
      && negb (startswith new_raw (py "mailto:")
               || startswith new_raw (py "javascript:")
               || startswith new_raw (py "#"))
   then
     new_url <-! urljoin w clean_url new_raw;
     parsed_new <-! parse new_url;
     new_url <-! (if nonempty (scheme parsed_new) then Ok new_url
                  else (pc <-! parse clean_url;
                        Ok (geturl (replace_scheme parsed_new (scheme pc)))));
     p <-! parse new_url;
     let new_clean := geturl (replace_fragment p []) in
     if bool_decide (new_clean ∈ visited) then Ok to_visit else
     same <-! is_same_domain (base_url cfg) new_clean;
     if negb same then Ok to_visit else
     within <-! is_within_depth (base_url cfg) new_clean (max_depth cfg);
     if negb within then Ok to_visit else
     if ignore_epubs cfg && endswith (lower new_clean) (py ".epub")
     then Ok to_visit else
     if bool_decide ((new_clean, depth + 1)%Z ∈ to_visit) then Ok to_visit
     else Ok (to_visit ++ [(new_clean, depth + 1)%Z])
   else Ok to_visit)%result.

Definition link_error_message (new_raw le : str) : str :=
  py "  [yellow]Link parse error '" ++ new_raw ++ py "': " ++ le ++ py "[/yellow]".

(** The body of [for link in soup.find_all('a', href=True)], for one
    anchor: the frontier afterwards and, when the handler of the link
    raises while it prints, the exception.  An exception of the [try]
    block skips the link. *)
Definition process_link (visited : gset str) (clean_url : str) (depth : Z)
    (to_visit : list (str * Z)) (new_raw : str) : list (str * Z) * option str :=
  match link_attempt visited clean_url depth to_visit new_raw with
  | Ok to_visit' => (to_visit', None)
  | Raise le => (to_visit, rich_print w (link_error_message new_raw le))
  end.

(** The loop over the anchors: it ends at the first exception. *)
Fixpoint process_links (visited : gset str) (clean_url : str) (depth : Z)
    (hrefs : list str) (to_visit : list (str * Z)) : list (str * Z) * option str :=
  match hrefs with
  | [] => (to_visit, None)
  | new_raw :: hrefs' =>
      match process_link visited clean_url depth to_visit new_raw with
      | (to_visit', None) => process_links visited clean_url depth hrefs' to_visit'
      | (to_visit', Some e) => (to_visit', Some e)
      end
  end.

Definition page_error (e : str) : str :=
  nl ++ py "<error>Failed to process page: " ++ escape_xml e ++ py "</error>" ++ nl.

(** The [try] block of one iteration and its handler: what is appended to
    [page_content_xml_inner], and the frontier afterwards. *)
Definition process_page (visited : gset str) (to_visit : list (str * Z))
    (clean_url : str) (depth : Z) : str * list (str * Z) :=
  if endswith (lower clean_url) (py ".pdf") then
    if include_pdfs cfg then
      match process_web_pdf clean_url with
      | Ok pdf_text_or_error =>
          (nl ++ pdf_content_to_add pdf_text_or_error ++ nl, to_visit)
      | Raise e => (page_error e, to_visit)
      end
    else (nl ++ py "<skipped>PDF ignored by config</skipped>" ++ nl, to_visit)
  else
    match http_get w clean_url with
    | GetRaised e => (page_error e, to_visit)
    | GetResponse content_type soup =>
        if negb (contains (lower (default [] content_type)) (py "text/html"))
        then (nl ++ py "<skipped>Non-HTML: "
                 ++ escape_xml (default (py "N/A") content_type)
                 ++ py "</skipped>" ++ nl, to_visit)
        else match soup with
             | Raise e => (page_error e, to_visit)
             | Ok (text_raw, hrefs) =>
                 if (depth <? max_depth cfg)%Z then
                   match process_links visited clean_url depth hrefs to_visit with
                   | (to_visit', None) => (nl ++ escape_xml text_raw ++ nl, to_visit')
                   | (to_visit', Some e) =>
                       ((nl ++ escape_xml text_raw ++ nl) ++ page_error e, to_visit')
                   end
                 else (nl ++ escape_xml text_raw ++ nl, to_visit)
             end
    end.

(** Line 598: [True] when the entry is skipped. *)
Definition skip_entry (visited : gset str) (clean_url : str) : result bool :=
  (if bool_decide (clean_url ∈ visited) then Ok true else
   same <-! is_same_domain (base_url cfg) clean_url;
   if negb same then Ok true else
   within <-! is_within_depth (base_url cfg) clean_url (max_depth cfg);
   Ok (negb within))%result.

Definition crawling_message : str :=
  py "Crawling: " ++ base_url cfg ++ py " (Depth: " ++ str_of_Z (max_depth cfg)
     ++ py ", PDFs: " ++ str_of_bool (include_pdfs cfg) ++ py ")".

Definition skipping_message (clean_url : str) : str :=
  py "Skipping EPUB: " ++ clean_url.

Definition processing_message (depth : Z) (clean_url : str) : str :=
  py "Processing (Depth " ++ str_of_Z depth ++ py "): " ++ clean_url.

(** One iteration of [while to_visit]. *)
Definition crawl_step (st : crawl_state) : step_result :=
  match to_visit st with
  | [] => Stop
  | (curr_url, depth) :: rest =>
      match (clean_url <-! normalize curr_url;
             skip <-! skip_entry (visited st) clean_url;
             Ok (clean_url, skip))%result with
      | Raise e => Error e
      | Ok (clean_url, true) =>
          Next (mkState (visited st) rest (pages st) (visit_log st))
      | Ok (clean_url, false) =>
          let visited' := visited st ∪ {[clean_url]} in
          let log' := visit_log st ++ [clean_url] in
          if ignore_epubs cfg && endswith (lower clean_url) (py ".epub")
          then
            match rich_print w (skipping_message clean_url) with
            | Some e => Error e
            | None => Next (mkState visited' rest (pages st) log')
            end
          else
            match rich_print w (processing_message depth clean_url) with
            | Some e => Error e
            | None =>
                let '(body, to_visit') := process_page visited' rest clean_url depth in
                let xml := nl ++ py "<page " ++ attr (py "url") (escape_xml clean_url)
                              ++ py ">" ++ body ++ py "</page>" in
                Next (mkState visited' to_visit'
                              (pages st ++ [mkPage clean_url depth body xml]) log')
            end
      end
  end.

Definition initial_state : crawl_state :=
  mkState ∅ [(base_url cfg, 0%Z)] [] [].

(** The loop, for at most [fuel] iterations. *)
Fixpoint crawl_loop (fuel : nat) (st : crawl_state) : crawl_state * status :=
  match fuel with
  | O => (st, Running)
  | S fuel' =>
      match crawl_step st with
      | Next st' => crawl_loop fuel' st'
      | Stop => (st, Finished)
      | Error e => (st, Raised e)
      end
  end.

(** The state after [n] iterations (or the last state of the loop, if it
    ends earlier). *)
Definition crawl_state_at (n : nat) : crawl_state :=
  fst (crawl_loop n initial_state).

Definition all_text_xml (st : crawl_state) : list str :=
  [py "<source " ++ attr (py "type") (py "web_crawl") ++ py " "
      ++ attr (py "base_url") (escape_xml (base_url cfg)) ++ py ">"]
  ++ map page_xml (pages st) ++ [nl ++ py "</source>"].

(** [crawl_and_extract_text]: [None] when [fuel] iterations do not
    empty the frontier.  The message before the loop and the message
    after it are printed outside any [try] block, as are the two messages
    of [crawl_step]. *)
Definition crawl_and_extract_text (fuel : nat) : option (result crawl_result) :=
  match rich_print w crawling_message with
  | Some e => Some (Raise e)
  | None =>
      match crawl_loop fuel initial_state with
      | (st, Finished) =>
          Some (_ <-! printing (rich_print w (py "Crawl finished."));
                Ok (mkResult (join nl (all_text_xml st)) (map page_url (pages st))))%result
      | (_, Raised e) => Some (Raise e)
      | (_, Running) => None
      end
  end.

End Engine.

End Crawl.
Export Crawl.

(** ** The source dispatcher *)

Module Dispatch.

(** [os.path.basename] and the root of [os.path.splitext] (POSIX). *)
Definition basename (p : str) : str :=
  match rfind "/" p with
  | Some i => drop (S i) p
  | None => p
  end.

Definition splitext_root (p : str) : str :=
  let filename_index := match rfind "/" p with Some i => S i | None => 0 end in
  match rfind "." p with
  | Some dot_index =>
      if existsb (fun c => negb (Ascii.eqb c "."))
                 (drop filename_index (take dot_index p))
      then take dot_index p
      else p
  | None => p
  end.

(** The collaborators of the dispatcher: the functions that only do I/O
    (each returns a string or raises), the file system and the console.
    [crawl] is [crawl_and_extract_text] of the crawl engine, run until its
    loop ends; [console_print_exception] is
    [console.print_exception(show_locals=False)] for the exception that is
    being handled. *)
Record handlers := mkHandlers {
  h_check_bracketed_netloc : str -> option str;
  console_print : printer;
  console_print_exception : str -> option str;
  process_github_pull_request : str -> result str;
  process_github_issue : str -> result str;
  process_github_repo : str -> result str;
  fetch_youtube_transcript : str -> result str;
  process_arxiv_pdf : str -> result str;
  crawl : str -> Z -> bool -> bool -> result crawl_result;
  excel_to_markdown_from_url : str -> result (list (str * str));
  process_doi_or_pmid : str -> result str;
  isdir : str -> bool;
  isfile : str -> bool;
  process_local_folder : str -> result str;
  _process_pdf_content_from_path : str -> result str;
  excel_to_markdown : str -> result (list (str * str));
  safe_file_read : str -> result str
}.

(** The entries of [config] that [dispatch_processing] reads. *)
Record dispatch_config := mkDispatchConfig {
  cfg_max_depth : Z;
  cfg_include_pdfs : bool;
  cfg_ignore_epubs : bool;
  cfg_urls_list_file : str
}.

Section Dispatcher.

Variable h : handlers.

(** One [<file path=...>] element per sheet. *)
Definition sheet_files (bname : str) (sheets : list (str * str)) : list str :=
  map (fun '(sname, md_raw) =>
         py "<file " ++ attr (py "path") (escape_xml (bname ++ py "_" ++ sname ++ py ".md"))
            ++ py ">" ++ escape_xml md_raw ++ py "</file>")
      sheets.

(** [raw if raw.strip().startswith("<e>") else escape_xml(raw)]. *)
Definition raw_or_escaped (raw : str) : str :=
  if startswith (strip raw) (py "<e>") then raw else escape_xml raw.

Definition file_block (kind key input fname content_to_insert : str) : str :=
  py "<source " ++ attr (py "type") kind ++ py " " ++ attr key (escape_xml input)
     ++ py ">" ++ nl ++ py "<file " ++ attr (py "path") (escape_xml fname)
     ++ py ">" ++ nl ++ content_to_insert ++ nl ++ py "</file>" ++ nl
     ++ py "</source>".

Definition dispatching_message (input_path_or_url : str) : str :=
  nl ++ py "[green]Dispatching for:[/] [yellow]" ++ input_path_or_url ++ py "[/]".

(** The condition of line 809 calls [is_allowed_filetype], a name that
    nothing in the program defines: evaluating it raises [NameError], and
    the two branches after it (the direct file URL and the crawl of any
    other web page) are never reached. *)
Definition is_allowed_filetype_undefined : str :=
  py "name 'is_allowed_filetype' is not defined".

Definition dispatch_processing (input_path_or_url : str) (config : dispatch_config)
  : result str :=
  let input := input_path_or_url in
  (_ <-! printing (console_print h (dispatching_message input));
   if contains input (py "github.com") then
     if contains input (py "/pull/") then process_github_pull_request h input
     else if contains input (py "/issues/") then process_github_issue h input
     else process_github_repo h input
   else
   parsed <-! urlparse (h_check_bracketed_netloc h) input;
   if str_in (scheme parsed) [py "http"; py "https"] then
     if contains input (py "youtube.com") || contains input (py "youtu.be")
     then fetch_youtube_transcript h input
     else if contains input (py "arxiv.org/abs/") then process_arxiv_pdf h input
     else if endswith (lower input) (py ".pdf") then
       _ <-! printing (console_print h
                         (py "[yellow]Direct PDF URL - single page crawl[/yellow]"));
       crawl_res <-! crawl h input 0%Z true (cfg_ignore_epubs config);
       Ok (content crawl_res)
     else if endswith (lower input) (py ".xls") || endswith (lower input) (py ".xlsx")
     then
       _ <-! printing (console_print h (py "Excel URL: " ++ input));
       fname <-! (p <-! urlparse (h_check_bracketed_netloc h) input; Ok (basename (path p)));
       let bname := splitext_root fname in
       let parts := [py "<source " ++ attr (py "type") (py "web_excel") ++ py " "
                        ++ attr (py "url") (escape_xml input) ++ py ">"] in
       let parts :=
         match excel_to_markdown_from_url h input with
         | Ok sheets => parts ++ sheet_files bname sheets
         | Raise e => parts ++ [py "<e>Failed Excel URL: " ++ escape_xml e ++ py "</e>"]
         end in
       Ok (join nl (parts ++ [py "</source>"]))
     else Raise is_allowed_filetype_undefined
   else if (startswith input (py "10.") && contains input (py "/")) || isdigit input
   then process_doi_or_pmid h input
   else if isdir h input then process_local_folder h input
   else if isfile h input then
     if endswith (lower input) (py ".pdf") then
       pdf_text_raw <-! _process_pdf_content_from_path h input;
       Ok (file_block (py "local_file") (py "path") input (basename input)
             (raw_or_escaped pdf_text_raw))
     else if endswith (lower input) (py ".xls") || endswith (lower input) (py ".xlsx")
     then
       let bname := splitext_root (basename input) in
       let parts := [py "<source " ++ attr (py "type") (py "local_file") ++ py " "
                        ++ attr (py "path") (escape_xml input) ++ py ">"] in
       let parts :=
         match excel_to_markdown h input with
         | Ok sheets => parts ++ sheet_files bname sheets
         | Raise e => parts ++ [py "<e>Failed local Excel: " ++ escape_xml e ++ py "</e>"]
         end in
       Ok (join nl (parts ++ [py "</source>"]))
     else
       fcontent_raw <-! safe_file_read h input;
       Ok (file_block (py "local_file") (py "path") input (basename input)
             (escape_xml fcontent_raw))
   else Raise (py "Input type not recognized: " ++ input))%result.

(** The block [process_input] returns when [dispatch_processing] raised
    an exception whose [str] is [e]. *)
Definition error_block (input_path e : str) : str :=
  py "<source " ++ attr (py "type") (py "error") ++ py " "
     ++ attr (py "path") (escape_xml input_path) ++ py "><e>Failed: "
     ++ escape_xml e ++ py "</e></source>".

Definition error_message (input_path e : str) : str :=
  nl ++ py "[red]Error processing '" ++ input_path ++ py "': " ++ e ++ py "[/red]".

Definition process_input_config : dispatch_config :=
  mkDispatchConfig 1 true true (py "processed_urls.txt").

(** [process_input(input_path)], as [web_app.py] calls it (and as [main]
    does: the task it passes is the first task of its progress bar, number
    0, so that [if task and progress] is false there too).  An exception
    of the handler leaves the function. *)
Definition process_input (input_path : str) : result str :=
  match dispatch_processing input_path process_input_config with
  | Ok block => Ok block
  | Raise e =>
      (_ <-! printing (console_print h (error_message input_path e));
       _ <-! printing (console_print_exception h e);
       Ok (error_block input_path e))%result
  end.

End Dispatcher.

End Dispatch.
Export Dispatch.

(** ** Aliases *)

Module Alias.

(** The regular files of the alias directory [~/.onefilellm_aliases], by
    name, with their content.  The directory is on a POSIX file system,
    holds nothing but these files, and its files can be read. *)
Abbreviation alias_dir := (gmap str str).

(** What the file system does when a file of the alias directory is
    opened for writing: [write_error name] is the [IOError] that opening
    the file of a name and writing it raises, if any (a name that is too
    long, a full disk, ...); [directory_error] is the [IsADirectoryError]
    of opening the directory itself.  What a write that fails leaves in
    the file is not modelled: the directory is then as it was. *)
Record file_system := mkFileSystem {
  write_error : str -> option str;
  directory_error : str
}.

Definition LF : ascii := "010"%char.
Definition CR : ascii := "013"%char.
Definition NUL : ascii := "000"%char.

(** The characters that cannot occur in an alias name:
    ['.', '/', ':', '\\']. *)
Definition forbidden_chars : list ascii := [ "."; "/"; ":"; "092" ]%char.

Definition is_potential_alias (arg_string : str) : bool :=
  nonempty arg_string
  && negb (existsb (fun c => char_in arg_string c) forbidden_chars).

(** [args.index(x)]; [None] when [x] is not in [args]. *)
Fixpoint list_index (x : str) (args : list str) : option nat :=
  match args with
  | [] => None
  | a :: args' => if bool_decide (a = x) then Some 0 else S <$> list_index x args'
  end.

(** [open(ALIAS_DIR / alias_name, "w")] and the writes: a name with a NUL
    character raises [ValueError]; the empty name is the directory itself,
    which raises [IsADirectoryError], an [IOError], as does a file that
    cannot be written; otherwise the file holds [content] afterwards. *)
Inductive write_outcome :=
| Written (dir : alias_dir)
| WriteIOError (e : str)
| WriteValueError (e : str).

Definition write_alias_file (fs : file_system)
    (alias_name content : str) (dir : alias_dir) : write_outcome :=
  if char_in alias_name NUL then WriteValueError (py "embedded null byte")
  else if nonempty alias_name then
    match write_error fs alias_name with
    | None => Written (<[alias_name := content]> dir)
    | Some e => WriteIOError e
    end
  else WriteIOError (directory_error fs).

Definition created_message (alias_name : str) (targets : list str) : str :=
  py "[green]Alias '" ++ alias_name ++ py "' created/updated for: "
     ++ join (py ", ") targets ++ py "[/green]".

(** [handle_add_alias]: the alias directory afterwards, and the exception
    that leaves the function, if any.  The message about the alias is
    printed inside the [try] block, whose handler is for [IOError]
    only. *)
Definition handle_add_alias (fs : file_system) (print : printer) (args : list str)
    (dir : alias_dir) : alias_dir * option str :=
  match list_index (py "--add-alias") args with
  | None =>
      (dir, print (py "[bold red]Error: --add-alias flag not found correctly in handle_add_alias.[/bold red]"))
  | Some i =>
      let alias_name_idx := i + 1 in
      match args !! alias_name_idx with
      | None =>
          (dir, print (py "[bold red]Error: Alias name not provided after --add-alias.[/bold red]"))
      | Some alias_name =>
          let targets := drop (alias_name_idx + 1) args in
          if existsb (fun c => char_in alias_name c) [ "/"; "092"; "."; ":" ]%char
          then (dir, print (py "[bold red]Error: Invalid alias name '" ++ alias_name
                               ++ py "'.[/bold red]"))
          else match targets with
               | [] => (dir, print (py "[bold red]Error: No targets for alias.[/bold red]"))
               | _ =>
                   match write_alias_file fs alias_name
                           (concat (map (fun target => target ++ [LF]) targets)) dir with
                   | Written dir' => (dir', print (created_message alias_name targets))
                   | WriteIOError e =>
                       (dir, print (py "[bold red]Error creating alias file: " ++ e
                                       ++ py "[/bold red]"))
                   | WriteValueError e => (dir, Some e)
                   end
               end
      end
  end.

(** Reading in text mode: [\r\n] and [\r] become [\n]. *)
Fixpoint translate_newlines (s : str) : str :=
  match s with
  | [] => []
  | c :: s' =>
      if Ascii.eqb c CR then
        match s' with
        | d :: s'' => if Ascii.eqb d LF then LF :: translate_newlines s''
                      else LF :: translate_newlines s'
        | [] => [LF]
        end
      else c :: translate_newlines s'
  end.

(** [for l in f]: the lines of a text, each with its line feed. *)
Fixpoint lines_from (cur s : str) : list str :=
  match s with
  | [] => if nonempty cur then [cur] else []
  | c :: s' =>
      if Ascii.eqb c LF then (cur ++ [c]) :: lines_from [] s'
      else lines_from (cur ++ [c]) s'
  end.

Definition readlines (s : str) : list str := lines_from [] s.

(** [[l.strip() for l in f if l.strip()]]. *)
Definition read_targets (content : str) : list str :=
  List.filter nonempty (map strip (readlines (translate_newlines content))).

(** [load_alias]: [None] when there is no such file. *)
Definition load_alias (print : printer) (alias_name : str) (dir : alias_dir)
  : result (option (list str)) :=
  match dir !! alias_name with
  | Some content =>
      match read_targets content with
      | [] =>
          (_ <-! printing (print (py "[yellow]Warning: Alias '" ++ alias_name
                                     ++ py "' is empty.[/yellow]"));
           Ok (Some []))%result
      | targets => Ok (Some targets)
      end
  | None => Ok None
  end.

Definition checking_message (source_string : str) : str :=
  py "[dim]Checking if '" ++ source_string ++ py "' is an alias...[/dim]".

Definition expanded_message (source_string : str) (resolved : list str) : str :=
  py "[cyan]Alias '" ++ source_string ++ py "' expanded to: "
     ++ join (py ", ") resolved ++ py "[/cyan]".

Definition resolve_single_input_source (print : printer) (source_string : str)
    (dir : alias_dir) : result (list str) :=
  if is_potential_alias source_string then
    (_ <-! printing (print (checking_message source_string));
     resolved <-! load_alias print source_string dir;
     match resolved with
     | Some resolved =>
         _ <-! printing (print (match resolved with
                                | [] => py "[yellow]Alias '" ++ source_string
                                           ++ py "' is empty. Skipping.[/yellow]"
                                | _ => expanded_message source_string resolved
                                end));
         Ok resolved
     | None =>
         _ <-! printing (print (py "[dim]'" ++ source_string
                                   ++ py "' not a known alias or error reading. Treating as direct input.[/dim]"));
         Ok [source_string]
     end)%result
  else Ok [source_string].

End Alias.
Export Alias.

(** ** GitHub URLs *)

Module GitHub.

(** [s.split(sep)] for a separator of one or more characters: [skip]
    counts the characters of a separator still to pass, [cur] is the piece
    being read. *)
Fixpoint split_on (sep : str) (skip : nat) (cur s : str) : list str :=
  match s with
  | [] => [cur]
  | c :: s' =>
      match skip with
      | S k => split_on sep k cur s'
      | O => if startswith s sep then cur :: split_on sep (length sep - 1) [] s'
             else split_on sep 0 (cur ++ [c]) s'
      end
  end.

Definition split_str (sep s : str) : list str := split_on sep 0 [] s.

(** [l[-1]] and [l[-2]]. *)
Definition last_part (l : list str) : str := default [] (last l).
Definition before_last_part (l : list str) : option str :=
  match rev l with
  | _ :: x :: _ => Some x
  | _ => None
  end.

(** The first lines of [process_github_pull_request] and of
    [process_github_issue] ([kind] is [pull] or [issues], [api_kind] is
    [pulls] or [issues]): [None] when the URL is answered with the
    [Invalid URL format] block, otherwise the API URL that is requested
    and the URL of the repository. *)
Definition github_item_urls (kind api_kind url : str) : option (str * str) :=
  let url_parts := split "/" url in
  if (length url_parts <? 7)
     || negb (bool_decide (before_last_part url_parts = Some kind))
  then None
  else
    let repo_owner := default [] (url_parts !! 3) in
    let repo_name := default [] (url_parts !! 4) in
    let number := last_part url_parts in
    Some (py "https://api.github.com/repos/" ++ repo_owner ++ py "/" ++ repo_name
             ++ py "/" ++ api_kind ++ py "/" ++ number,
          py "https://github.com/" ++ repo_owner ++ py "/" ++ repo_name).

Definition pull_request_urls : str -> option (str * str) :=
  github_item_urls (py "pull") (py "pulls").

Definition issue_urls : str -> option (str * str) :=
  github_item_urls (py "issues") (py "issues").

(** The first lines of [process_github_repo]: the URL of the contents API
    that is requested first. *)
Definition contents_url (repo_url : str) : str :=
  let repo_url_parts :=
    split "/" (last_part (split_str (py "https://github.com/") repo_url)) in
  let repo_name := join (py "/") (take 2 repo_url_parts) in
  let is_tree := (2 <? length repo_url_parts)
                 && bool_decide (repo_url_parts !! 2 = Some (py "tree")) in
  let branch_or_tag :=
    if is_tree && (3 <? length repo_url_parts)
    then default [] (repo_url_parts !! 3) else [] in
  let subdirectory :=
    if is_tree && (4 <? length repo_url_parts)
    then join (py "/") (drop 4 repo_url_parts) else [] in
  let contents_url := py "https://api.github.com/repos/" ++ repo_name ++ py "/contents" in
  let contents_url :=
    if nonempty subdirectory then contents_url ++ py "/" ++ subdirectory
    else contents_url in
  if nonempty branch_or_tag then contents_url ++ py "?ref=" ++ branch_or_tag
  else contents_url.

End GitHub.
Export GitHub.

(** ** Definitions that follow the wording of the specification *)

Module Spec.

(** The scope test as the specification words it: the stripped path of
    the candidate begins with the stripped path of the base, and the
    difference of their '/'-split segment counts is at most [max_depth]. *)
Definition is_within_depth (w : world) (base current : str) (max_depth : Z)
  : result bool :=
  (b <-! urlparse (check_bracketed_netloc w) base;
   c <-! urlparse (check_bracketed_netloc w) current;
   let base_p := rstrip_char "/" (path b) in
   let current_p := rstrip_char "/" (path c) in
   Ok (startswith current_p base_p
       && (Z.of_nat (length (split "/" current_p))
           - Z.of_nat (length (split "/" base_p)) <=? max_depth)%Z))%result.

(** A page yields extracted text. *)
Definition yields_text (page : page_outcome) : Prop :=
  exists page_text, page = PageText page_text /\ page_text <> [].

(** Extraction of page [i] fails with the exception [page_e]: the
    handler of the loop catches it. *)
Definition fails (print : printer) (source_description : str) (i : nat)
    (page : page_outcome) (page_e : str) : Prop :=
  page_attempt print source_description i page = Raise page_e.

(** The extraction is an overall success: it returns concatenated text
    rather than a whole-document error marker. *)
Definition overall_success (print : printer) (source_description : str)
    (pages : list page_outcome) : Prop :=
  exists text, extract_pdf print source_description pages = Ok (Extracted text).

End Spec.

(** ** Small sites used to run the crawl *)

Module Examples.

(** An HTML response with the given text and anchors. *)
Definition html_page (text_raw : str) (hrefs : list str) : http_outcome :=
  GetResponse (Some (py "text/html; charset=utf-8")) (Ok (text_raw, hrefs)).

Fixpoint lookup_page (site : list (str * list str)) (url : str) : http_outcome :=
  match site with
  | [] => GetRaised (py "404 Client Error: Not Found")
  | (u, hrefs) :: site' =>
      if bool_decide (u = url) then html_page (py "text of " ++ u) hrefs
      else lookup_page site' url
  end.

(** [s.find(sub)]. *)
Fixpoint find_str (sub s : str) : option nat :=
  if startswith s sub then Some 0
  else match s with
       | [] => None
       | _ :: s' => S <$> find_str sub s'
       end.

(** Printing as [rich] does it on the messages of these examples: the
    tags of the messages match, and so does everything in the texts put
    into them but the closing tag [[/x]], which no tag opens and at which
    [rich] raises its [MarkupError]. *)
Definition rich_markup (message : str) : option str :=
  (fun position =>
     py "closing tag '[/x]' at position " ++ str_of_nat position
        ++ py " doesn't match any open tag")
  <$> find_str (py "[/x]") message.

(** A world whose pages are those of [site].  Every anchor is an absolute
    URL, which [urljoin] returns as it is; every PDF download fails. *)
Definition world_of_site (site : list (str * list str)) : world :=
  mkWorld (fun _ => None) (fun _ href => Ok href) (lookup_page site)
          (fun _ => PdfRequestError (py "404 <Not Found>")) rich_markup.

(** [/d] links to [/d/x] and [/d/y]; [/d/x] links to [/d/y] and back to [/d]. *)
Definition two_paths : world :=
  world_of_site
    [ (py "http://h/d", [py "http://h/d/x"; py "http://h/d/y"]);
      (py "http://h/d/x", [py "http://h/d/y"; py "http://h/d"]);
      (py "http://h/d/y", [py "http://elsewhere/d/z"]) ].

Definition two_paths_config : config := mkConfig (py "http://h/d") 2 true true.

(** [/docs] links to its sibling [/docs-other]. *)
Definition siblings : world :=
  world_of_site
    [ (py "http://h/docs", [py "http://h/docs-other"]);
      (py "http://h/docs-other", []) ].

Definition siblings_config : config := mkConfig (py "http://h/docs") 1 true true.

(** A direct PDF URL, as the dispatcher crawls it. *)
Definition pdf_config : config := mkConfig (py "http://h/a.pdf") 0 true true.

(** A machine without network and without files, with the console of
    [rich_markup]. *)
Definition offline : handlers :=
  let no_network : str -> result str := fun _ => Raise (py "no network") in
  mkHandlers (fun _ => None) rich_markup (fun _ => None)
    no_network no_network no_network no_network no_network
    (fun _ _ _ _ => Raise (py "no network"))
    (fun _ => Raise (py "no network"))
    no_network
    (fun _ => false) (fun _ => false)
    (fun _ => Raise (py "no such directory"))
    (fun _ => Raise (py "no such file"))
    (fun _ => Raise (py "no such file"))
    (fun _ => Raise (py "no such file")).

End Examples.

(** * Properties *)

(** ** The crawl loop *)

Section CrawlInvariants.

Variable w : world.
Variable cfg : config.

(** A URL passes the two scope tests of the loop. *)
Definition in_scope (u : str) : Prop :=
  is_same_domain w (base_url cfg) u = Ok true
  /\ is_within_depth w (base_url cfg) u (max_depth cfg) = Ok true.

(** What one iteration may append to the frontier while it processes an
    entry of depth [depth], with [vis] visited and [tv] already queued. *)
Definition fresh_entries (vis : gset str) (depth : Z) (tv new : list (str * Z)) : Prop :=
  Forall (fun e => e.2 = (depth + 1)%Z /\ (e.1 ∉ vis) /\ (e ∉ tv) /\ in_scope e.1) new
  /\ NoDup new.

Lemma skip_entry_false vis u :
  skip_entry w cfg vis u = Ok false -> (u ∉ vis) /\ in_scope u.
Proof.
  unfold skip_entry, in_scope.
  case_bool_decide as Hin; [discriminate|].
  destruct (is_same_domain w (base_url cfg) u) as [[|]|] eqn:Hs; simpl; try discriminate.
  destruct (is_within_depth w (base_url cfg) u (max_depth cfg)) as [[|]|] eqn:Hd;
    simpl; try discriminate.
  auto.
Qed.

Lemma process_link_spec vis clean depth tv href :
  (process_link w cfg vis clean depth tv href).1 = tv
  \/ exists u, (process_link w cfg vis clean depth tv href).1 = tv ++ [(u, (depth + 1)%Z)]
              /\ (u ∉ vis) /\ ((u, (depth + 1)%Z) ∉ tv) /\ in_scope u.
Proof.
  unfold process_link, link_attempt.
  destruct (nonempty href && _); [|by left].
  destruct (urljoin w clean href) as [new_url|]; simpl; [|by left].
  destruct (urlparse _ new_url) as [parsed_new|]; simpl; [|by left].
  match goal with |- context [rbind ?r _] => destruct r as [new_url'|] end;
    simpl; [|by left].
  destruct (urlparse _ new_url') as [p|]; simpl; [|by left].
  case_bool_decide as Hvis; [by left|].
  destruct (is_same_domain _ _ _) as [[|]|] eqn:Hs; simpl; try by left.
  destruct (is_within_depth _ _ _ _) as [[|]|] eqn:Hd; simpl; try by left.
  destruct (ignore_epubs cfg && _); [by left|].
  case_bool_decide as Hq; [by left|].
  right. eexists. split; [reflexivity|]. unfold in_scope. auto.
Qed.

Lemma fresh_entries_nil vis depth tv : fresh_entries vis depth tv [].
Proof. split; constructor. Qed.

Lemma fresh_entries_cons vis depth tv u new :
  u ∉ vis -> (u, (depth + 1)%Z) ∉ tv -> in_scope u ->
  fresh_entries vis depth (tv ++ [(u, (depth + 1)%Z)]) new ->
  fresh_entries vis depth tv ((u, (depth + 1)%Z) :: new).
Proof.
  intros Hv Hq Hs [Hall Hnd]. split.
  - constructor; [simpl; auto|].
    eapply Forall_impl; [exact Hall|]. intros e (? & ? & Hne & ?).
    split_and!; try done. intros He. apply Hne. apply elem_of_app. by left.
  - constructor; [|done]. intros Hin.
    rewrite Forall_forall in Hall. destruct (Hall _ Hin) as (_ & _ & Hne & _).
    apply Hne. apply elem_of_app. right. by apply list_elem_of_singleton.
Qed.

(** The loop over the anchors only appends fresh entries, also when it
    ends early. *)
Lemma process_links_spec vis clean depth hrefs tv :
  exists new,
    (process_links w cfg vis clean depth hrefs tv).1 = tv ++ new
    /\ fresh_entries vis depth tv new.
Proof.
  revert tv. induction hrefs as [|href hrefs IH]; intros tv; simpl.
  - exists []. rewrite app_nil_r. split; [done|apply fresh_entries_nil].
  - pose proof (process_link_spec vis clean depth tv href) as Hl.
    destruct (process_link w cfg vis clean depth tv href) as [tv' [e|]]; simpl in *.
    + destruct Hl as [->|(u & -> & Hv & Hq & Hs)].
      * exists []. rewrite app_nil_r. split; [done|apply fresh_entries_nil].
      * exists [(u, (depth + 1)%Z)]. split; [done|].
        apply fresh_entries_cons; try done. apply fresh_entries_nil.
    + destruct Hl as [->|(u & -> & Hv & Hq & Hs)]; [apply IH|].
      destruct (IH (tv ++ [(u, (depth + 1)%Z)])) as (new & -> & Hfresh).
      exists ((u, (depth + 1)%Z) :: new). rewrite <- app_assoc. split; [done|].
      by apply fresh_entries_cons.
Qed.

Lemma process_page_spec vis tv clean depth :
  exists new,
    (process_page w cfg vis tv clean depth).2 = tv ++ new
    /\ fresh_entries vis depth tv new.
Proof.
  assert (Hnil : exists new, tv = tv ++ new /\ fresh_entries vis depth tv new).
  { exists []. rewrite app_nil_r. split; [done|apply fresh_entries_nil]. }
  unfold process_page.
  destruct (endswith _ _).
  { destruct (include_pdfs cfg); [|done]. by destruct (process_web_pdf w clean). }
  destruct (http_get w clean) as [e|ct soup]; [done|].
  destruct (negb _); [done|].
  destruct soup as [[text_raw hrefs]|e]; [|done].
  destruct (depth <? max_depth cfg)%Z; [|done].
  destruct (process_links_spec vis clean depth hrefs tv) as (new & Hnew & Hfresh).
  destruct (process_links w cfg vis clean depth hrefs tv) as [tv' [e|]];
    simpl in *; eauto.
Qed.

(** One iteration, as a relation between the states before and after. *)
Lemma crawl_step_spec st st' :
  crawl_step w cfg st = Next st' ->
  exists curr_url depth rest,
    to_visit st = (curr_url, depth) :: rest
    /\ ((st' = mkState (visited st) rest (pages st) (visit_log st))
        \/ exists clean_url,
            (clean_url ∉ visited st) /\ in_scope clean_url
            /\ visited st' = visited st ∪ {[clean_url]}
            /\ visit_log st' = visit_log st ++ [clean_url]
            /\ ((to_visit st' = rest /\ pages st' = pages st)
                \/ exists new body xml,
                    to_visit st' = rest ++ new
                    /\ fresh_entries (visited st') depth rest new
                    /\ pages st' = pages st ++ [mkPage clean_url depth body xml])).
Proof.
  unfold crawl_step. destruct (to_visit st) as [|[curr_url depth] rest] eqn:Htv; [done|].
  destruct (normalize w curr_url) as [clean_url|]; simpl; [|done].
  destruct (skip_entry w cfg (visited st) clean_url) as [[|]|] eqn:Hskip; simpl; [| |done].
  - intros [= <-]. exists curr_url, depth, rest. split; [done|]. by left.
  - apply skip_entry_false in Hskip as [Hnv Hsc].
    intros Hst. exists curr_url, depth, rest. split; [done|]. right.
    exists clean_url. split; [done|]. split; [done|].
    destruct (ignore_epubs cfg && _).
    + destruct (rich_print w _); [done|].
      injection Hst as <-. simpl. split_and!; try done. by left.
    + destruct (rich_print w _); [done|].
      destruct (process_page_spec (visited st ∪ {[clean_url]}) rest clean_url depth)
        as (new & Hnew & Hfresh).
      destruct (process_page _ _ _ _ _ _) as [body tv'] eqn:Hpp. simpl in Hnew.
      injection Hst as <-. simpl. split_and!; try done.
      right. exists new, body. eexists. split_and!; try done; apply Hfresh.
Qed.

(** The invariant of the loop. *)
Record crawl_inv (st : crawl_state) : Prop := mkInv {
  inv_log : forall u, u ∈ visited st <-> u ∈ visit_log st;
  inv_log_nodup : NoDup (visit_log st);
  inv_pages_visited : forall r, r ∈ pages st -> page_url r ∈ visited st;
  inv_pages_nodup : NoDup (map page_url (pages st));
  inv_scope : forall u, u ∈ visited st -> in_scope u;
  inv_frontier_nodup : NoDup (to_visit st);
  inv_pages_sorted : StronglySorted Z.le (map page_depth (pages st));
  inv_frontier_sorted : StronglySorted Z.le (map snd (to_visit st));
  inv_pages_le : forall r e, r ∈ pages st -> e ∈ to_visit st -> (page_depth r <= e.2)%Z;
  inv_spread : forall e1 e2, e1 ∈ to_visit st -> e2 ∈ to_visit st -> (e2.2 <= e1.2 + 1)%Z
}.

Lemma crawl_inv_initial : crawl_inv (initial_state cfg).
Proof.
  split; simpl.
  - intros u. set_solver.
  - constructor.
  - intros r Hr. by apply elem_of_nil in Hr.
  - constructor.
  - intros u Hu. set_solver.
  - apply NoDup_singleton.
  - constructor.
  - repeat constructor.
  - intros r e Hr. by apply elem_of_nil in Hr.
  - intros e1 e2 ->%list_elem_of_singleton ->%list_elem_of_singleton. simpl. lia.
Qed.

Lemma fresh_entries_depth vis depth tv new e :
  fresh_entries vis depth tv new -> e ∈ new -> e.2 = (depth + 1)%Z.
Proof.
  intros [Hall _] He. rewrite Forall_forall in Hall. by destruct (Hall e He).
Qed.

Lemma fresh_entries_sorted vis depth tv new :
  fresh_entries vis depth tv new -> StronglySorted Z.le (map snd new).
Proof.
  intros [Hall _]. induction Hall as [|e new (He & _) Hall IH]; simpl; [constructor|].
  constructor; [done|]. apply Forall_forall. intros d Hd.
  apply list_elem_of_fmap in Hd as (e' & -> & He').
  rewrite Forall_forall in Hall. destruct (Hall e' He') as [-> _]. lia.
Qed.

Lemma crawl_inv_skip curr_url depth rest vis pgs log :
  crawl_inv (mkState vis ((curr_url, depth) :: rest) pgs log) ->
  crawl_inv (mkState vis rest pgs log).
Proof.
  intros [? ? ? ? ? Hnd ? Hfs Hle Hsp]. simpl in *.
  split; simpl; try done.
  - by apply NoDup_cons in Hnd as [_ ?].
  - by apply StronglySorted_cons in Hfs as [_ ?].
  - intros r e Hr He. apply Hle; [done|]. by apply elem_of_cons; right.
  - intros e1 e2 H1 H2. apply Hsp; by apply elem_of_cons; right.
Qed.

Lemma crawl_inv_step st st' :
  crawl_inv st -> crawl_step w cfg st = Next st' -> crawl_inv st'.
Proof.
  intros Hinv Hstep.
  destruct (crawl_step_spec st st' Hstep) as (curr_url & depth & rest & Htv & Hcases).
  destruct st as [vis tv pgs log]. simpl in *. subst tv.
  destruct Hcases as [->|(clean & Hnv & Hsc & Hvis & Hlog & Hcases)].
  { by eapply crawl_inv_skip. }
  pose proof (crawl_inv_skip _ _ _ _ _ _ Hinv) as Hinv'.
  destruct Hinv as [Hl Hlnd Hpv Hpnd Hscope Hfnd Hps Hfs Hle Hsp]. simpl in *.
  assert (Hhead : forall e, e ∈ rest -> (depth <= e.2 <= depth + 1)%Z).
  { intros e He. split.
    - apply StronglySorted_cons in Hfs as [Hall _]. rewrite Forall_forall in Hall.
      apply Hall. by apply (list_elem_of_fmap_2 snd).
    - apply (Hsp (curr_url, depth) e); [by left|by right]. }
  assert (Hpd : forall r, r ∈ pgs -> (page_depth r <= depth)%Z).
  { intros r Hr. apply (Hle r (curr_url, depth) Hr). by left. }
  assert (Hl' : forall u, u ∈ visited st' <-> u ∈ visit_log st').
  { intros u. rewrite Hvis, Hlog, elem_of_union, elem_of_app, Hl,
      elem_of_singleton, list_elem_of_singleton. done. }
  assert (Hlnd' : NoDup (visit_log st')).
  { rewrite Hlog. apply NoDup_app. split; [done|]. split; [|apply NoDup_singleton].
    intros u Hu ->%list_elem_of_singleton. by apply Hnv, Hl. }
  assert (Hscope' : forall u, u ∈ visited st' -> in_scope u).
  { intros u. rewrite Hvis, elem_of_union, elem_of_singleton. intros [?| ->]; auto. }
  destruct Hinv' as [_ _ _ _ _ Hfnd' _ Hfs' Hle' Hsp']. simpl in *.
  destruct Hcases as [[Hrest Hpages]|(new & body & xml & Hrest & Hfresh & Hpages)].
  - destruct st' as [vis' tv' pgs' log']. simpl in *. subst.
    split; simpl; try done.
    intros r Hr. apply elem_of_union. left. by apply Hpv.
  - destruct st' as [vis' tv' pgs' log']. simpl in *. subst tv' pgs'.
    assert (Hnewd : forall e, e ∈ new -> e.2 = (depth + 1)%Z).
    { intros e. by eapply fresh_entries_depth. }
    split; simpl; try done.
    + intros r [Hr| ->%list_elem_of_singleton]%elem_of_app; rewrite Hvis.
      * apply elem_of_union. left. by apply Hpv.
      * apply elem_of_union. right. by apply elem_of_singleton.
    + rewrite map_app. simpl. apply NoDup_app. split; [done|].
      split; [|apply NoDup_singleton].
      intros u Hu ->%list_elem_of_singleton. apply Hnv.
      apply list_elem_of_fmap in Hu as (r & -> & Hr). by apply Hpv.
    + apply NoDup_app. split; [done|]. split; [|apply Hfresh].
      intros e He Hnew. destruct Hfresh as [Hall _]. rewrite Forall_forall in Hall.
      by destruct (Hall e Hnew) as (_ & _ & Hne & _).
    + rewrite map_app. simpl. apply StronglySorted_app. split_and!; [|done|repeat constructor].
      intros d1 d2 Hd1 ->%list_elem_of_singleton.
      apply list_elem_of_fmap in Hd1 as (r & -> & Hr). by apply Hpd.
    + rewrite map_app. apply StronglySorted_app. split_and!; [|done|by eapply fresh_entries_sorted].
      intros d1 d2 Hd1 Hd2.
      apply list_elem_of_fmap in Hd1 as (e1 & -> & He1).
      apply list_elem_of_fmap in Hd2 as (e2 & -> & He2).
      rewrite (Hnewd e2 He2). by apply Hhead.
    + intros r e [Hr| ->%list_elem_of_singleton]%elem_of_app [He|He]%elem_of_app; simpl.
      * by apply Hle'.
      * rewrite (Hnewd e He). specialize (Hpd r Hr). lia.
      * by apply Hhead.
      * rewrite (Hnewd e He). lia.
    + intros e1 e2 [H1|H1]%elem_of_app [H2|H2]%elem_of_app.
      * by apply Hsp'.
      * rewrite (Hnewd e2 H2). specialize (Hhead e1 H1). lia.
      * rewrite (Hnewd e1 H1). specialize (Hhead e2 H2). lia.
      * rewrite (Hnewd e1 H1), (Hnewd e2 H2). lia.
Qed.

Lemma crawl_inv_loop n st : crawl_inv st -> crawl_inv (crawl_loop w cfg n st).1.
Proof.
  revert st. induction n as [|n IH]; intros st Hinv; simpl; [done|].
  destruct (crawl_step w cfg st) as [st'| |e] eqn:Hstep; simpl; [|done|done].
  apply IH. by eapply crawl_inv_step.
Qed.

(** The invariant holds in every state the loop goes through. *)
Lemma crawl_inv_reachable n : crawl_inv (crawl_state_at w cfg n).
Proof. apply crawl_inv_loop, crawl_inv_initial. Qed.

End CrawlInvariants.

Lemma StronglySorted_lookup {A} (R : relation A) (l : list A) i j x y :
  StronglySorted R l -> i < j -> l !! i = Some x -> l !! j = Some y -> R x y.
Proof.
  intros Hs. revert i j. induction Hs as [|a l Hs IH Hall]; intros i j Hij Hi Hj.
  - by rewrite lookup_nil in Hi.
  - destruct j as [|j]; [lia|]. simpl in Hj. destruct i as [|i]; simpl in Hi.
    + injection Hi as <-. rewrite Forall_forall in Hall.
      by eapply Hall, list_elem_of_lookup_2.
    + apply (IH i j); [lia|done|done].
Qed.

Section CrawlTheorems.

Variable w : world.
Variable cfg : config.

(** C4.  In every state of every crawl, no URL was passed twice to
    [visited.add] (each normalized URL is added to the Visited set at most
    once, [visited] being exactly the set of the URLs added), and the
    output has at most one page record per normalized URL.  The world [w]
    is arbitrary, so this covers cyclic link graphs. *)
Theorem no_duplicate_visits (n : nat) :
  NoDup (visit_log (crawl_state_at w cfg n))
  /\ (forall u, u ∈ visited (crawl_state_at w cfg n) <-> u ∈ visit_log (crawl_state_at w cfg n))
  /\ NoDup (map page_url (pages (crawl_state_at w cfg n))).
Proof.
  destruct (crawl_inv_reachable w cfg n). auto.
Qed.

(** C5.  Domain containment: a URL whose host differs from the host of
    the base URL (that is, for which [is_same_domain] does not answer
    [True]) is never in the Visited set and never the URL of a page
    record. *)
Theorem domain_containment (n : nat) (u : str) :
  is_same_domain w (base_url cfg) u <> Ok true ->
  (u ∉ visited (crawl_state_at w cfg n))
  /\ (u ∉ map page_url (pages (crawl_state_at w cfg n))).
Proof.
  intros Hne. destruct (crawl_inv_reachable w cfg n) as [_ _ Hpv _ Hsc _ _ _ _ _].
  assert (Hv : u ∉ visited (crawl_state_at w cfg n)).
  { intros Hu. by destruct (Hsc u Hu). }
  split; [done|]. intros (r & -> & Hr)%list_elem_of_fmap. by apply Hv, Hpv.
Qed.

(** The page records come out in non-decreasing order of depth. *)
Lemma pages_sorted_by_depth (n : nat) :
  StronglySorted Z.le (map page_depth (pages (crawl_state_at w cfg n))).
Proof. by destruct (crawl_inv_reachable w cfg n). Qed.

(** C7.  FIFO ordering: in the output of every crawl, a page record
    whose frontier entry had depth 0 comes before every page record whose
    frontier entry had depth 1. *)
Theorem fifo_ordering (n i j : nat) (r0 r1 : page_record) :
  pages (crawl_state_at w cfg n) !! i = Some r0 ->
  pages (crawl_state_at w cfg n) !! j = Some r1 ->
  page_depth r0 = 0%Z -> page_depth r1 = 1%Z ->
  i < j.
Proof.
  intros Hi Hj H0 H1.
  destruct (decide (i < j)) as [|Hge]; [done|exfalso].
  destruct (decide (i = j)) as [->|Hne].
  - rewrite Hi in Hj. injection Hj as ->. lia.
  - assert (Hle : (page_depth r1 <= page_depth r0)%Z); [|lia].
    apply (StronglySorted_lookup Z.le
             (map page_depth (pages (crawl_state_at w cfg n))) j i);
      [apply pages_sorted_by_depth|lia| |].
    + by rewrite list_lookup_fmap, Hj.
    + by rewrite list_lookup_fmap, Hi.
Qed.

(** C2, amended.  An iteration removes the head of the frontier and
    appends entries at its end; no appended entry has a URL that is in the
    Visited set, none is equal, as a (URL, depth) pair, to an entry already
    queued, and the frontier never holds the same pair twice. *)
Theorem frontier_insertions (n : nat) (st' : crawl_state) :
  crawl_step w cfg (crawl_state_at w cfg n) = Next st' ->
  exists new,
    to_visit st' = tail (to_visit (crawl_state_at w cfg n)) ++ new
    /\ Forall (fun e => (e.1 ∉ visited st')
                       /\ (e ∉ tail (to_visit (crawl_state_at w cfg n)))) new
    /\ NoDup (to_visit st').
Proof.
  intros Hstep.
  pose proof (crawl_inv_step w cfg _ _ (crawl_inv_reachable w cfg n) Hstep) as Hinv'.
  destruct (crawl_step_spec w cfg _ _ Hstep)
    as (curr_url & depth & rest & -> & Hcases). simpl.
  assert (Hnil : forall tv, tv = rest -> exists new : list (str * Z),
             tv = rest ++ new
             /\ Forall (fun e => (e.1 ∉ visited st') /\ (e ∉ rest)) new).
  { intros tv ->. exists []. by rewrite app_nil_r. }
  destruct Hcases as [->|(clean & _ & _ & _ & _ & [[Hrest _]|Hnew])].
  - destruct (Hnil rest eq_refl) as (new & ? & ?). exists new. split_and!; try done.
    apply Hinv'.
  - destruct (Hnil _ Hrest) as (new & ? & ?). exists new. split_and!; try done.
    apply Hinv'.
  - destruct Hnew as (new & body & xml & Hrest & [Hall _] & _).
    exists new. split_and!; [done| |apply Hinv'].
    eapply Forall_impl; [exact Hall|]. intros e (_ & ? & ? & _). auto.
Qed.

End CrawlTheorems.

(** C2, as stated, fails: after two iterations on the site [two_paths]
    the frontier holds [http://h/d/y] twice, at depth 1 (found on [/d])
    and at depth 2 (found on [/d/x], while the first entry was still
    queued). *)
Lemma frontier_same_url_two_depths :
  to_visit (crawl_state_at Examples.two_paths Examples.two_paths_config 2)
  = [(py "http://h/d/y", 1%Z); (py "http://h/d/y", 2%Z)]
  /\ ~ NoDup (map fst (to_visit (crawl_state_at Examples.two_paths
                                  Examples.two_paths_config 2))).
Proof.
  assert (H : to_visit (crawl_state_at Examples.two_paths Examples.two_paths_config 2)
              = [(py "http://h/d/y", 1%Z); (py "http://h/d/y", 2%Z)]).
  { vm_compute. reflexivity. }
  split; [exact H|]. rewrite H. simpl.
  intros Hnd. apply NoDup_cons in Hnd as [Hnin _]. apply Hnin. by left.
Qed.

(** Witness of [domain_containment]: the link to another host found on
    [http://h/d/y]. *)
Lemma domain_containment_witness :
  is_same_domain Examples.two_paths (py "http://h/d") (py "http://elsewhere/d/z") <> Ok true
  /\ (py "http://elsewhere/d/z"
        ∉ visited (crawl_state_at Examples.two_paths Examples.two_paths_config 10))
  /\ (py "http://elsewhere/d/z"
        ∉ map page_url (pages (crawl_state_at Examples.two_paths
                                  Examples.two_paths_config 10))).
Proof.
  assert (H : is_same_domain Examples.two_paths (py "http://h/d")
                (py "http://elsewhere/d/z") <> Ok true).
  { vm_compute. intros H. discriminate H. }
  split; [exact H|].
  exact (domain_containment Examples.two_paths Examples.two_paths_config 10
           (py "http://elsewhere/d/z") H).
Defined.

(** Witness of [fifo_ordering]: the crawl of [two_paths] outputs [/d]
    (depth 0), then [/d/x] and [/d/y] (depth 1). *)
Lemma fifo_ordering_witness :
  exists r0 r1,
    pages (crawl_state_at Examples.two_paths Examples.two_paths_config 10) !! 0 = Some r0
    /\ pages (crawl_state_at Examples.two_paths Examples.two_paths_config 10) !! 1 = Some r1
    /\ page_depth r0 = 0%Z /\ page_depth r1 = 1%Z /\ 0 < 1.
Proof.
  eexists _, _.
  assert (H0 : pages (crawl_state_at Examples.two_paths Examples.two_paths_config 10) !! 0
               = Some _) by (vm_compute; reflexivity).
  assert (H1 : pages (crawl_state_at Examples.two_paths Examples.two_paths_config 10) !! 1
               = Some _) by (vm_compute; reflexivity).
  split; [exact H0|]. split; [exact H1|].
  split; [reflexivity|]. split; [reflexivity|].
  exact (fifo_ordering Examples.two_paths Examples.two_paths_config 10 0 1 _ _
           H0 H1 eq_refl eq_refl).
Defined.

(** Witness of [frontier_insertions]: the second iteration on
    [two_paths]. *)
Lemma frontier_insertions_witness :
  crawl_step Examples.two_paths Examples.two_paths_config
    (crawl_state_at Examples.two_paths Examples.two_paths_config 1)
  = Next (crawl_state_at Examples.two_paths Examples.two_paths_config 2)
  /\ exists new,
      to_visit (crawl_state_at Examples.two_paths Examples.two_paths_config 2)
      = tail (to_visit (crawl_state_at Examples.two_paths Examples.two_paths_config 1))
        ++ new
      /\ Forall (fun e =>
                   (e.1 ∉ visited (crawl_state_at Examples.two_paths
                                      Examples.two_paths_config 2))
                   /\ (e ∉ tail (to_visit (crawl_state_at Examples.two_paths
                                             Examples.two_paths_config 1)))) new
      /\ NoDup (to_visit (crawl_state_at Examples.two_paths Examples.two_paths_config 2)).
Proof.
  assert (H : crawl_step Examples.two_paths Examples.two_paths_config
                (crawl_state_at Examples.two_paths Examples.two_paths_config 1)
              = Next (crawl_state_at Examples.two_paths Examples.two_paths_config 2)).
  { vm_compute. reflexivity. }
  split; [exact H|].
  exact (frontier_insertions Examples.two_paths Examples.two_paths_config 1 _ H).
Defined.

(** ** The scope test *)

Section Scope.

Variable w : world.

Lemma is_within_depth_true base current max_depth :
  is_within_depth w base current max_depth = Ok true <->
  exists b c,
    urlparse (check_bracketed_netloc w) base = Ok b
    /\ urlparse (check_bracketed_netloc w) current = Ok c
    /\ startswith (rstrip_char "/" (path c)) (rstrip_char "/" (path b)) = true
    /\ (path_segments (rstrip_char "/" (path c))
        - path_segments (rstrip_char "/" (path b)) <= max_depth)%Z.
Proof.
  unfold is_within_depth.
  destruct (urlparse _ base) as [b|e]; simpl; [|split; [done|by intros (? & ? & ? & _)]].
  destruct (urlparse _ current) as [c|e]; simpl;
    [|split; [done|by intros (? & ? & _ & ? & _)]].
  destruct (startswith _ _) eqn:Hpre; simpl.
  - split.
    + intros [= Hle%Z.leb_le]. by exists b, c.
    + intros (b' & c' & [= <-] & [= <-] & _ & Hle). f_equal. by apply Z.leb_le.
  - split; [done|]. intros (b' & c' & [= <-] & [= <-] & Hpre' & _). congruence.
Qed.

Lemma startswith_nonempty (s prefix : str) :
  startswith s prefix = true -> prefix <> [] -> s <> [].
Proof. destruct prefix, s; simpl; congruence. Qed.

Lemma split_length_pos c (s : str) : 0 < length (split c s).
Proof.
  induction s as [|d s IH]; simpl; [lia|].
  destruct (Ascii.eqb d c); simpl; [lia|]. destruct (split c s); simpl in *; lia.
Qed.

(** When the prefix test passes, the plain difference of '/'-split counts
    is at most the difference the code computes. *)
Lemma split_count_difference (base_p current_p : str) :
  startswith current_p base_p = true ->
  (Z.of_nat (length (split "/" current_p)) - Z.of_nat (length (split "/" base_p))
   <= path_segments current_p - path_segments base_p)%Z.
Proof.
  intros Hpre. unfold path_segments.
  destruct base_p as [|b base_p]; simpl nonempty; cbv iota.
  - pose proof (split_length_pos "/" current_p).
    destruct current_p; simpl nonempty; cbv iota; simpl length; lia.
  - assert (current_p <> []) by (by eapply startswith_nonempty).
    destruct current_p; [done|]. simpl nonempty. cbv iota. lia.
Qed.

End Scope.

(** C10, as stated, fails when the base URL has an empty path: the code
    counts 0 segments for an empty stripped path, so [/a] is 2 segments
    away from the base [http://h], while the difference of the '/'-split
    counts is 1. *)
Lemma within_depth_empty_base_path :
  is_within_depth Examples.siblings (py "http://h") (py "http://h/a") 1 = Ok false
  /\ Spec.is_within_depth Examples.siblings (py "http://h") (py "http://h/a") 1 = Ok true.
Proof. split; reflexivity. Qed.

(** C10, amended.  [is_within_depth] is a test on the raw path strings:
    it holds exactly when the stripped path of the candidate begins with
    the stripped path of the base and the difference of their segment
    counts is at most [max_depth], where the segment count of a path is
    its number of '/'-split pieces, and 0 for the empty path.  For
    the base [http://h/docs] the sibling [http://h/docs-other] is in scope
    with difference 0, and a crawl from [/docs] that finds a link to it
    outputs a page for it. *)
Theorem within_depth_is_prefix_test (w : world) (base current : str) (max_depth : Z) :
  (is_within_depth w base current max_depth = Ok true <->
   exists b c,
     urlparse (check_bracketed_netloc w) base = Ok b
     /\ urlparse (check_bracketed_netloc w) current = Ok c
     /\ startswith (rstrip_char "/" (path c)) (rstrip_char "/" (path b)) = true
     /\ (path_segments (rstrip_char "/" (path c))
         - path_segments (rstrip_char "/" (path b)) <= max_depth)%Z)
  /\ is_same_domain w (py "http://h/docs") (py "http://h/docs-other") = Ok true
  /\ is_within_depth w (py "http://h/docs") (py "http://h/docs-other") 0 = Ok true
  /\ map page_url (pages (crawl_state_at Examples.siblings Examples.siblings_config 5))
     = [py "http://h/docs"; py "http://h/docs-other"].
Proof.
  split; [apply is_within_depth_true|].
  split; [reflexivity|]. split; [reflexivity|]. vm_compute. reflexivity.
Qed.

(** C6.  Depth containment: for every page record of every crawl, the
    stripped path of its URL begins with the stripped path of the base
    URL, and its number of path segments minus that of the base URL is at
    most [max_depth], both with the segment count of the code (0 for an
    empty path) and with the plain '/'-split count. *)
Theorem depth_containment (w : world) (cfg : config) (n : nat) :
  Forall (fun r =>
            exists b c,
              urlparse (check_bracketed_netloc w) (base_url cfg) = Ok b
              /\ urlparse (check_bracketed_netloc w) (page_url r) = Ok c
              /\ (path_segments (rstrip_char "/" (path c))
                  - path_segments (rstrip_char "/" (path b)) <= max_depth cfg)%Z
              /\ (Z.of_nat (length (split "/" (rstrip_char "/" (path c))))
                  - Z.of_nat (length (split "/" (rstrip_char "/" (path b))))
                  <= max_depth cfg)%Z)
         (pages (crawl_state_at w cfg n)).
Proof.
  apply Forall_forall. intros r Hr.
  destruct (crawl_inv_reachable w cfg n) as [_ _ Hpv _ Hsc _ _ _ _ _].
  destruct (Hsc _ (Hpv r Hr)) as [_ Hd].
  apply is_within_depth_true in Hd as (b & c & Hb & Hc & Hpre & Hle).
  exists b, c. split_and!; try done.
  pose proof (split_count_difference _ _ Hpre). lia.
Qed.

(** ** PDF extraction *)

Section PdfExtraction.

Variable print : printer.
Variable source_description : str.

Abbreviation fails := (Spec.fails print source_description).

(** What a page contributes, when the warning of the handler is printed. *)
Lemma pdf_page_entry_spec i page :
  (forall page_e, fails i page page_e ->
                  print (page_warning source_description i page_e) = None) ->
  exists entries,
    pdf_page_entry print source_description i page = Ok entries
    /\ (entries <> [] <-> Spec.yields_text page \/ exists page_e, fails i page page_e)
    /\ (forall page_e, fails i page page_e -> entries = [page_error_marker i page_e])
    /\ (forall page_text, page = PageText page_text -> page_text <> [] ->
                          entries = [page_text]).
Proof.
  unfold Spec.fails, Spec.yields_text, pdf_page_entry. intros Hprint.
  destruct (page_attempt print source_description i page) as [entries|page_e] eqn:Ha.
  - exists entries. split; [done|]. destruct page as [t|e]; simpl in Ha; [|done].
    destruct t as [|c t]; simpl in Ha.
    + destruct (print (blank_page_note source_description i)); [done|].
      injection Ha as <-. split_and!; try done.
      * split; [done|]. intros [(t & [= <-] & ?)|[e [=]]]. done.
      * by intros t [= <-] ?.
    + injection Ha as <-. split_and!; try done.
      * split; [|done]. intros _. left. by eexists.
      * by intros t' [= <-] _.
  - rewrite (Hprint page_e eq_refl). simpl.
    exists [page_error_marker i page_e]. split_and!; try done.
    + split; [|done]. intros _. right. by exists page_e.
    + by intros e [= <-].
    + intros t -> Ht. simpl in Ha. by destruct t.
Qed.

Lemma pdf_text_list_from_spec k pages :
  (forall i page page_e, pages !! i = Some page -> fails (k + i) page page_e ->
       print (page_warning source_description (k + i) page_e) = None) ->
  exists text_list,
    pdf_text_list_from print source_description k pages = Ok text_list
    /\ (text_list <> [] <->
        exists i page, pages !! i = Some page
                       /\ (Spec.yields_text page \/ exists page_e, fails (k + i) page page_e))
    /\ (forall i page page_e, pages !! i = Some page -> fails (k + i) page page_e ->
          page_error_marker (k + i) page_e ∈ text_list)
    /\ (forall i page_text, pages !! i = Some (PageText page_text) ->
          page_text <> [] -> page_text ∈ text_list).
Proof.
  revert k. induction pages as [|page pages IH]; intros k Hprint.
  - exists []. split_and!; try done.
    split; [done|]. by intros (i & page & Hi & _).
  - destruct (pdf_page_entry_spec k page) as (entries & He & Hne & Hfail & Htext).
    { intros e Hf. specialize (Hprint 0 page e eq_refl).
      rewrite Nat.add_0_r in Hprint. auto. }
    destruct (IH (S k)) as (later & Hl & Hlne & Hlfail & Hltext).
    { intros i p e Hi Hf. specialize (Hprint (S i) p e Hi).
      rewrite Nat.add_succ_r in Hprint. auto. }
    exists (entries ++ later). cbn [pdf_text_list_from]. rewrite He, Hl.
    split; [done|]. split_and!.
    + split.
      * intros H. destruct entries as [|x xs].
        -- destruct (proj1 Hlne H) as (i & p & Hi & Hp). exists (S i), p.
           rewrite Nat.add_succ_r. done.
        -- exists 0, page. rewrite Nat.add_0_r. split; [done|]. by apply Hne.
      * intros ([|i] & p & Hi & Hp); simpl in Hi.
        -- injection Hi as <-. rewrite Nat.add_0_r in Hp.
           apply Hne in Hp. by destruct entries.
        -- rewrite Nat.add_succ_r in Hp.
           assert (later <> []) by (apply Hlne; eauto).
           intros [_ ?]%app_eq_nil. done.
    + intros [|i] p e Hi Hf; simpl in Hi; apply elem_of_app.
      * injection Hi as <-. rewrite Nat.add_0_r in *. left.
        rewrite (Hfail e Hf). by apply list_elem_of_singleton.
      * rewrite Nat.add_succ_r in *. right. by eapply Hlfail.
    + intros [|i] t Hi Ht; simpl in Hi; apply elem_of_app.
      * injection Hi as ->. left. rewrite (Htext t eq_refl Ht).
        by apply list_elem_of_singleton.
      * right. by eapply Hltext.
Qed.

End PdfExtraction.




(** ** Escaping of page bodies *)

Lemma lstrip_if_cons_false p c (s : str) :
  p c = false -> lstrip_if p (c :: s) = c :: s.
Proof. intros H. simpl. by rewrite H. Qed.

Lemma rstrip_if_snoc p (s : str) c :
  p c = false -> rstrip_if p (s ++ [c]) = s ++ [c].
Proof.
  intros H. unfold rstrip_if. rewrite rev_app_distr.
  change (rev [c] ++ rev s) with (c :: rev s).
  rewrite lstrip_if_cons_false by done.
  change (rev (c :: rev s)) with (rev (rev s) ++ [c]). by rewrite rev_involutive.
Qed.

Lemma strip_error_marker (body : str) :
  startswith (strip (py "<error>" ++ body ++ py "</error>")) (py "<e>") = false.
Proof.
  assert (E : py "<error>" ++ body ++ py "</error>"
              = ("<"%char :: py "error>" ++ body ++ py "</error") ++ [">"%char]).
  { simpl. do 7 f_equal. by rewrite <- app_assoc. }
  rewrite E. unfold strip.
  rewrite <- app_comm_cons, lstrip_if_cons_false by reflexivity.
  rewrite app_comm_cons, rstrip_if_snoc by reflexivity.
  reflexivity.
Qed.

(** C1 (the code departs from it).  The three error strings of
    [process_web_pdf] begin with [<error>], which the test
    [startswith("<e>")] of the crawl does not recognise: each of them is
    entity-escaped when it is inserted into the page body, and the message
    inside, which [process_web_pdf] had escaped, is escaped twice.  On the
    direct PDF URL [http://h/a.pdf] whose download fails with
    [404 <Not Found>] the body of the page is the escaped marker. *)
Theorem pdf_error_marker_escaped_again (e : str) :
  pdf_content_to_add (py "<error>Failed to download PDF: " ++ escape_xml e ++ py "</error>")
  = escape_xml (py "<error>Failed to download PDF: " ++ escape_xml e ++ py "</error>")
  /\ pdf_content_to_add (py "<error>Failed to process PDF: " ++ escape_xml e ++ py "</error>")
    = escape_xml (py "<error>Failed to process PDF: " ++ escape_xml e ++ py "</error>")
  /\ pdf_content_to_add (py "<error>Skipped non-PDF content reported at PDF URL.</error>")
    = py "&lt;error&gt;Skipped non-PDF content reported at PDF URL.&lt;/error&gt;"
  /\ process_web_pdf Examples.two_paths (py "http://h/a.pdf")
    = Ok (py "<error>Failed to download PDF: 404 &lt;Not Found&gt;</error>")
  /\ map page_body (pages (crawl_state_at Examples.two_paths Examples.pdf_config 3))
    = [nl ++ py "&lt;error&gt;Failed to download PDF: 404 &amp;lt;Not Found&amp;gt;&lt;/error&gt;"
          ++ nl].
Proof.
  split_and!.
  - unfold pdf_content_to_add.
    assert (E : py "<error>Failed to download PDF: " ++ escape_xml e ++ py "</error>"
                = py "<error>" ++ (py "Failed to download PDF: " ++ escape_xml e) ++ py "</error>")
      by reflexivity.
    rewrite E at 2. by rewrite strip_error_marker, andb_false_r.
  - unfold pdf_content_to_add.
    assert (E : py "<error>Failed to process PDF: " ++ escape_xml e ++ py "</error>"
                = py "<error>" ++ (py "Failed to process PDF: " ++ escape_xml e) ++ py "</error>")
      by reflexivity.
    rewrite E at 2. by rewrite strip_error_marker, andb_false_r.
  - reflexivity.
  - reflexivity.
  - vm_compute. reflexivity.
Qed.

(** ** The dispatcher *)

(** C3 (the code departs from it).  [process_input] wraps
    [dispatch_processing] in a handler that returns an error block, but
    the handler first prints the input and the exception as markup: when
    the first message of [dispatch_processing] raises, for an input such as
    [[/x]], and the message of the handler raises as well, that exception
    leaves [process_input], and no block is returned. *)
Theorem process_input_raises_past_boundary :
  dispatch_processing Examples.offline (py "[/x]") process_input_config
  = Raise (py "closing tag '[/x]' at position 36 doesn't match any open tag")
  /\ process_input Examples.offline (py "[/x]")
     = Raise (py "closing tag '[/x]' at position 24 doesn't match any open tag")
  /\ forall (h : handlers) (input_path e e' : str),
       console_print h (dispatching_message input_path) = Some e ->
       console_print h (error_message input_path e) = Some e' ->
       process_input h input_path = Raise e'.
Proof.
  split_and!; [reflexivity|reflexivity|].
  intros h input_path e e' He He'. unfold process_input, dispatch_processing.
  rewrite He. unfold rbind, printing. by rewrite He'.
Qed.

(** ** URL normalization *)

Section StrLemmas.

Implicit Types (s a b : str) (c d : ascii).

Lemma char_in_true s c : char_in s c = true <-> c ∈ s.
Proof.
  unfold char_in. rewrite existsb_exists. split.
  - intros (d & Hd & ->%Ascii.eqb_eq). by apply list_elem_of_In.
  - intros Hc. exists c. split; [by apply list_elem_of_In|apply Ascii.eqb_refl].
Qed.

Lemma char_in_false s c : char_in s c = false <-> c ∉ s.
Proof. rewrite <- char_in_true. by destruct (char_in s c). Qed.

Lemma find_None s c : find c s = None <-> c ∉ s.
Proof.
  induction s as [|d s IH]; simpl.
  - split; [intros _; apply not_elem_of_nil|done].
  - destruct (Ascii.eqb d c) eqn:E.
    + apply Ascii.eqb_eq in E as ->. split; [done|]. intros H. destruct H. by left.
    + apply Ascii.eqb_neq in E. rewrite not_elem_of_cons, <- IH.
      destruct (find c s); simpl.
      * split; [done|]. by intros [_ ?].
      * split; [|done]. intros _. by split.
Qed.

Lemma find_app_cons a b c : c ∉ a -> find c (a ++ c :: b) = Some (length a).
Proof.
  induction a as [|d a IH]; simpl; intros Hc.
  - by rewrite Ascii.eqb_refl.
  - apply not_elem_of_cons in Hc as [Hne Hc].
    destruct (Ascii.eqb d c) eqn:E; [by apply Ascii.eqb_eq in E|].
    by rewrite (IH Hc).
Qed.

Lemma find_Some s c i :
  find c s = Some i ->
  s = take i s ++ c :: drop (S i) s /\ (c ∉ take i s) /\ length (take i s) = i.
Proof.
  revert i. induction s as [|d s IH]; simpl; intros i; [done|].
  destruct (Ascii.eqb d c) eqn:E.
  - apply Ascii.eqb_eq in E as ->. intros [= <-]. simpl. rewrite drop_0.
    split_and!; [done|apply not_elem_of_nil|done].
  - apply Ascii.eqb_neq in E. destruct (find c s) as [j|]; simpl; [|done].
    intros [= <-]. destruct (IH j eq_refl) as (Hs & Hn & Hl). simpl.
    split_and!; [by rewrite <- Hs| |by rewrite Hl].
    apply not_elem_of_cons. by split.
Qed.

Lemma drop_S_app a c b : drop (S (length a)) (a ++ c :: b) = b.
Proof.
  replace (S (length a)) with (length (a ++ [c])) by (rewrite length_app; simpl; lia).
  by rewrite (cons_middle c a b), app_assoc, drop_app_length.
Qed.

Lemma split_once_Some s c a b :
  split_once c s = Some (a, b) <-> s = a ++ c :: b /\ (c ∉ a).
Proof.
  unfold split_once. split.
  - destruct (find c s) as [i|] eqn:Hf; simpl; [|done]. intros [= <- <-].
    apply find_Some in Hf as (? & ? & ?). auto.
  - intros [-> Hc]. rewrite (find_app_cons _ _ _ Hc). simpl.
    by rewrite take_app_length, drop_S_app.
Qed.

Lemma split_at_app a b c : c ∉ a -> split_at c (a ++ c :: b) = (a, b).
Proof.
  intros Hc. unfold split_at.
  by rewrite (proj2 (split_once_Some (a ++ c :: b) c a b) (conj eq_refl Hc)).
Qed.

Lemma split_at_absent s c : c ∉ s -> split_at c s = (s, []).
Proof.
  intros Hc. unfold split_at, split_once. by rewrite (proj2 (find_None s c) Hc).
Qed.

Lemma split_at_spec s c a b :
  split_at c s = (a, b) ->
  (c ∉ a) /\ ((s = a /\ b = [] /\ (c ∉ s)) \/ s = a ++ c :: b).
Proof.
  unfold split_at. destruct (split_once c s) as [[a' b']|] eqn:E.
  - intros [= <- <-]. apply split_once_Some in E as [-> Hc]. auto.
  - intros [= <- <-]. unfold split_once in E.
    destruct (find c s) eqn:Hf; [done|]. apply find_None in Hf. auto.
Qed.

End StrLemmas.

Section UrlsplitSteps.

Variable chk : str -> option str.

Lemma urlsplit_steps (u : str) :
  urlsplit chk u =
  let '(sch, url) := split_scheme (prepare u) in
  let '(netloc, url) := split_netloc url in
  match netloc_error chk netloc with
  | Some e => Raise e
  | None =>
      let '(url, fragment) := split_at "#" url in
      let '(url, query) := split_at "?" url in
      Ok (mkSplitResult sch netloc url query fragment)
  end.
Proof.
  unfold urlsplit. fold (prepare u). fold (split_scheme (prepare u)).
  destruct (split_scheme (prepare u)) as [sch url].
  unfold split_netloc, netloc_error. case_bool_decide as H2.
  - destruct (_splitnetloc url 2) as [netloc url'].
    destruct ((char_in netloc "[" && negb (char_in netloc "]"))
              || (char_in netloc "]" && negb (char_in netloc "["))); [done|].
    destruct (char_in netloc "[" && char_in netloc "]"); [|done].
    by destruct (chk netloc).
  - reflexivity.
Qed.

Lemma urlparse_steps (u : str) :
  urlparse chk u =
  match urlsplit chk u with
  | Ok sr =>
      let '(url, params) := split_params (s_scheme sr) (s_path sr) in
      Ok (mkParseResult (s_scheme sr) (s_netloc sr) url params
                        (s_query sr) (s_fragment sr))
  | Raise e => Raise e
  end.
Proof. reflexivity. Qed.

End UrlsplitSteps.

Section UrlChars.

Implicit Types (s a b : str) (c d : ascii).

(** A string without tab, carriage return and line feed. *)
Definition safe (s : str) : Prop :=
  Forall (fun c => char_in _UNSAFE_URL_BYTES_TO_REMOVE c = false) s.

(** A string without the delimiters that end a network location. *)
Definition no_delim (s : str) : Prop :=
  Forall (fun c => char_in (py "/?#") c = false) s.

(** Empty, or beginning with a character that satisfies [p]. *)
Definition starts_with_char (p : ascii -> bool) (s : str) : Prop :=
  match s with
  | [] => True
  | c :: _ => p c = true
  end.

Lemma scheme_char_facts c :
  char_in scheme_chars c = true ->
  char_in scheme_chars (lower_char c) = true
  /\ lower_char (lower_char c) = lower_char c
  /\ lower_char c <> ":"%char
  /\ char_in _UNSAFE_URL_BYTES_TO_REMOVE (lower_char c) = false
  /\ (is_ascii_alpha c = true ->
      is_ascii_alpha (lower_char c) = true
      /\ _WHATWG_C0_CONTROL_OR_SPACE (lower_char c) = false).
Proof.
  destruct c as [[] [] [] [] [] [] [] []]; vm_compute; intros H;
    try discriminate H; split_and!; try done; by intros [=].
Qed.

Lemma remove_char_absent c s : c ∉ s -> remove_char c s = s.
Proof.
  induction s as [|d s IH]; simpl; [done|]. intros [Hne Hc]%not_elem_of_cons.
  destruct (Ascii.eqb d c) eqn:E; [apply Ascii.eqb_eq in E; congruence|].
  simpl. by rewrite IH.
Qed.

Lemma remove_char_elem c d s : d ∈ remove_char c s <-> d ∈ s /\ d <> c.
Proof.
  unfold remove_char. rewrite !list_elem_of_In, filter_In, negb_true_iff.
  by rewrite Ascii.eqb_neq.
Qed.

Lemma safe_elem s : safe s <-> ("009"%char ∉ s) /\ ("013"%char ∉ s) /\ ("010"%char ∉ s).
Proof.
  unfold safe. rewrite Forall_forall. split.
  - intros H. split_and!; intros Hin; by apply H in Hin.
  - intros (Ht & Hr & Hn) c Hc. apply char_in_false.
    unfold _UNSAFE_URL_BYTES_TO_REMOVE.
    rewrite !not_elem_of_cons. split_and!; try (intros ->; done).
    apply not_elem_of_nil.
Qed.

Lemma prepare_safe u : safe (prepare u).
Proof.
  apply safe_elem. unfold prepare. simpl.
  split_and!; intros Hin; repeat (apply remove_char_elem in Hin as [Hin ?]);
    congruence.
Qed.

Lemma prepare_id s :
  safe s -> starts_with_char (fun c => negb (_WHATWG_C0_CONTROL_OR_SPACE c)) s ->
  prepare s = s.
Proof.
  intros (Ht & Hr & Hn)%safe_elem Hhd. unfold prepare.
  assert (lstrip_if _WHATWG_C0_CONTROL_OR_SPACE s = s) as ->.
  { destruct s as [|c s]; [done|]. simpl in *.
    destruct (_WHATWG_C0_CONTROL_OR_SPACE c); [discriminate Hhd|reflexivity]. }
  unfold _UNSAFE_URL_BYTES_TO_REMOVE. simpl fold_left.
  rewrite (remove_char_absent _ _ Ht), (remove_char_absent _ _ Hr).
  by apply remove_char_absent.
Qed.

Lemma safe_app a b : safe (a ++ b) <-> safe a /\ safe b.
Proof. apply Forall_app. Qed.

Lemma safe_cons c s : safe (c :: s) <-> char_in _UNSAFE_URL_BYTES_TO_REMOVE c = false /\ safe s.
Proof. unfold safe. by rewrite Forall_cons. Qed.

End UrlChars.

Section SchemeStep.

Implicit Types (s a b sch rest : str) (c d : ascii).

(** What [urlsplit] accepts as a scheme, once lowered. *)
Record good_scheme (sch : str) : Prop := mkGoodScheme {
  gs_nonempty : sch <> [];
  gs_head : starts_with_char is_ascii_alpha sch;
  gs_chars : Forall (fun c => char_in scheme_chars c = true) sch;
  gs_lower : lower sch = sch
}.

Lemma lower_fixed_elem s c : lower s = s -> c ∈ s -> lower_char c = c.
Proof.
  unfold lower. induction s as [|d s IH]; simpl; [by intros _ ?%elem_of_nil|].
  intros [= Hd Hs] [->|Hc]%elem_of_cons; auto.
Qed.

Lemma good_scheme_no_colon sch : good_scheme sch -> ":"%char ∉ sch.
Proof.
  intros [_ _ Hch Hlo] Hin. rewrite Forall_forall in Hch.
  destruct (scheme_char_facts _ (Hch _ Hin)) as (_ & _ & Hne & _).
  by rewrite (lower_fixed_elem _ _ Hlo Hin) in Hne.
Qed.

Lemma good_scheme_safe sch : good_scheme sch -> safe sch.
Proof.
  intros [_ _ Hch Hlo]. apply Forall_forall. intros c Hin.
  rewrite Forall_forall in Hch.
  destruct (scheme_char_facts _ (Hch _ Hin)) as (_ & _ & _ & Hs & _).
  by rewrite (lower_fixed_elem _ _ Hlo Hin) in Hs.
Qed.

Lemma good_scheme_head sch rest :
  good_scheme sch ->
  starts_with_char (fun c => negb (_WHATWG_C0_CONTROL_OR_SPACE c)) (sch ++ rest).
Proof.
  intros [Hne Hhd Hch Hlo]. destruct sch as [|c sch]; [done|]. simpl in *.
  apply Forall_cons in Hch as [Hc _].
  destruct (scheme_char_facts _ Hc) as (_ & _ & _ & _ & Ha).
  destruct (Ha Hhd) as [_ Hw].
  assert (lower_char c = c) as Hl by (by injection Hlo).
  rewrite Hl in Hw. by rewrite Hw.
Qed.

Lemma split_scheme_spec s sch rest :
  split_scheme s = (sch, rest) -> sch <> [] ->
  good_scheme sch /\ exists pre, s = pre ++ ":"%char :: rest /\ sch = lower pre.
Proof.
  unfold split_scheme. destruct (find ":" s) as [i|] eqn:Hf; [|by intros [= <- _]].
  destruct s as [|c0 s0] eqn:Hs; [by intros [= <- _]|]. rewrite <- Hs in *.
  destruct (0 <? i) eqn:Hi; [|by intros [= <- _]].
  destruct (is_ascii_alpha c0) eqn:Ha; [|by intros [= <- _]].
  destruct (forallb (char_in scheme_chars) (take i s)) eqn:Hall; [|by intros [= <- _]].
  simpl. intros [= <- <-] _. apply Nat.ltb_lt in Hi.
  apply find_Some in Hf as (Hsplit & Hnc & Hlen).
  rewrite forallb_forall in Hall.
  assert (Hch : forall c, c ∈ take i s -> char_in scheme_chars c = true).
  { intros c Hc. by apply Hall, list_elem_of_In. }
  assert (Hpre : take i s = c0 :: take (pred i) s0).
  { rewrite Hs. destruct i; [lia|done]. }
  split; [|by exists (take i s)].
  split.
  - rewrite Hpre. discriminate.
  - rewrite Hpre. simpl.
    assert (Hc0 : char_in scheme_chars c0 = true).
    { apply Hch. rewrite Hpre. by left. }
    by destruct (scheme_char_facts _ Hc0) as (_ & _ & _ & _ & [? _]).
  - apply Forall_forall. intros c (c' & -> & Hc')%list_elem_of_fmap.
    by destruct (scheme_char_facts _ (Hch _ Hc')).
  - unfold lower. rewrite map_map. apply map_ext_in. intros c Hc%list_elem_of_In.
    by destruct (scheme_char_facts _ (Hch _ Hc)) as (_ & ? & _).
Qed.

Lemma split_scheme_app sch rest :
  good_scheme sch -> split_scheme (sch ++ ":"%char :: rest) = (sch, rest).
Proof.
  intros Hg. pose proof (good_scheme_no_colon _ Hg) as Hnc.
  destruct Hg as [Hne Hhd Hch Hlo].
  unfold split_scheme. rewrite (find_app_cons _ _ _ Hnc).
  destruct sch as [|c0 sch0] eqn:Hs; [done|]. rewrite <- Hs in *.
  assert ((sch ++ ":"%char :: rest) = c0 :: (sch0 ++ ":"%char :: rest)) as Hcons
    by (by rewrite Hs).
  rewrite Hcons at 1. rewrite take_app_length, drop_S_app, Hlo.
  assert (0 <? length sch = true) as -> by (apply Nat.ltb_lt; rewrite Hs; simpl; lia).
  assert (is_ascii_alpha c0 = true) as -> by (by rewrite Hs in Hhd).
  assert (forallb (char_in scheme_chars) sch = true) as ->; [|done].
  apply forallb_forall. intros c Hc%list_elem_of_In.
  rewrite Forall_forall in Hch. by apply Hch.
Qed.

End SchemeStep.

Section NetlocStep.

Implicit Types (s a b n t pre : str) (c d : ascii).

(** The length of the network location at the head of [s]: the position
    of its first delimiter, or its length. *)
Fixpoint netloc_len (s : str) : nat :=
  match s with
  | [] => 0
  | c :: s' => if char_in (py "/?#") c then 0 else S (netloc_len s')
  end.

Lemma min_delims (off : nat) s :
  fold_left
    (fun delim c =>
       match (fun i => off + i) <$> find c s with
       | Some wdelim => Nat.min delim wdelim
       | None => delim
       end)
    (py "/?#") (off + length s)
  = off + netloc_len s.
Proof.
  simpl fold_left. induction s as [|c s IH]; simpl; [lia|].
  unfold char_in. simpl existsb.
  destruct (Ascii.eqb c "/"), (Ascii.eqb c "?"), (Ascii.eqb c "#"); simpl;
    try (destruct (find "/" s), (find "?" s), (find "#" s); simpl in *; lia).
Qed.

Lemma find_from_app pre s c :
  find_from c (pre ++ s) (length pre) = (fun i => length pre + i) <$> find c s.
Proof. unfold find_from. by rewrite drop_app_length. Qed.

Lemma splitnetloc_app pre s :
  _splitnetloc (pre ++ s) (length pre) = (take (netloc_len s) s, drop (netloc_len s) s).
Proof.
  unfold _splitnetloc.
  assert (fold_left
            (fun delim c =>
               match find_from c (pre ++ s) (length pre) with
               | Some wdelim => Nat.min delim wdelim
               | None => delim
               end)
            (py "/?#") (length (pre ++ s))
          = length pre + netloc_len s) as ->.
  { rewrite <- min_delims, length_app. simpl. by rewrite !find_from_app. }
  by rewrite take_app_add, drop_app_length, drop_app_add.
Qed.

Lemma netloc_len_spec s :
  no_delim (take (netloc_len s) s)
  /\ starts_with_char (char_in (py "/?#")) (drop (netloc_len s) s).
Proof.
  induction s as [|c s [IH1 IH2]]; [by split; [constructor|]|].
  cbn [netloc_len]. destruct (char_in (py "/?#") c) eqn:E.
  - split; [constructor|exact E].
  - split; [by constructor|exact IH2].
Qed.

Lemma netloc_len_app n t :
  no_delim n -> starts_with_char (char_in (py "/?#")) t ->
  netloc_len (n ++ t) = length n.
Proof.
  intros Hn Ht. induction Hn as [|c n Hc Hn IH].
  - destruct t as [|c t]; [done|]. cbn [app netloc_len].
    change (char_in (py "/?#") c = true) in Ht. by rewrite Ht.
  - cbn [app netloc_len length]. by rewrite Hc, IH.
Qed.

Lemma split_netloc_spec s n t :
  split_netloc s = (n, t) -> n <> [] ->
  s = py "//" ++ n ++ t /\ no_delim n /\ starts_with_char (char_in (py "/?#")) t.
Proof.
  unfold split_netloc. case_bool_decide as H2; [|by intros [= <- _]].
  assert (s = py "//" ++ drop 2 s) as Hs by (by rewrite <- H2, take_drop).
  rewrite Hs at 1.
  change 2 with (length (py "//")) at 1. rewrite splitnetloc_app.
  intros [= <- <-] _. destruct (netloc_len_spec (drop 2 s)) as [H1 H3].
  split_and!; [|done|done]. by rewrite take_drop.
Qed.

Lemma split_netloc_app n t :
  no_delim n -> starts_with_char (char_in (py "/?#")) t ->
  split_netloc (py "//" ++ n ++ t) = (n, t).
Proof.
  intros Hn Ht. unfold split_netloc.
  rewrite bool_decide_true by done.
  change 2 with (length (py "//")). rewrite splitnetloc_app.
  by rewrite (netloc_len_app _ _ Hn Ht), take_app_length, drop_app_length.
Qed.

End NetlocStep.

Section ParamsStep.

Implicit Types (s a b url dir last pre post p pr sch : str) (c d : ascii).

(** The path and parameters put together again, as [urlunparse] does. *)
Definition params_join (p pr : str) : str :=
  if nonempty pr then p ++ py ";" ++ pr else p.

Lemma rfind_None s c : c ∉ s -> rfind c s = None.
Proof.
  induction s as [|d s IH]; simpl; [done|]. intros [Hne Hc]%not_elem_of_cons.
  rewrite (IH Hc). destruct (Ascii.eqb d c) eqn:E; [|done].
  apply Ascii.eqb_eq in E. congruence.
Qed.

Lemma rfind_app_cons a b c : c ∉ b -> rfind c (a ++ c :: b) = Some (length a).
Proof.
  intros Hc. induction a as [|d a IH]; simpl.
  - by rewrite (rfind_None _ _ Hc), Ascii.eqb_refl.
  - by rewrite IH.
Qed.

Lemma splitparams_slash dir last :
  "/"%char ∉ last ->
  _splitparams (dir ++ "/"%char :: last)
  = match split_once ";" last with
    | Some (pre, post) => (dir ++ "/"%char :: pre, post)
    | None => (dir ++ "/"%char :: last, [])
    end.
Proof.
  intros Hl. unfold _splitparams.
  assert (char_in (dir ++ "/"%char :: last) "/" = true) as ->.
  { apply char_in_true, elem_of_app. right. by left. }
  rewrite (rfind_app_cons _ _ _ Hl). simpl default.
  rewrite find_from_app. simpl find. unfold split_once.
  destruct (find ";" last) as [j|]; simpl; [|done].
  f_equal.
  - by rewrite take_app_add.
  - change (S (length dir + S j)) with (S (length dir + S j)).
    replace (S (length dir + S j)) with (length dir + S (S j)) by lia.
    by rewrite drop_app_add.
Qed.

Lemma starts_with_char_snoc_app (P : ascii -> bool) a c b :
  starts_with_char P (a ++ [c]) -> starts_with_char P ((a ++ [c]) ++ b).
Proof. by destruct a. Qed.

Lemma split_params_spec sch url p pr :
  starts_with_char (fun c => Ascii.eqb c "/") url ->
  split_params sch url = (p, pr) ->
  split_params sch (params_join p pr) = (p, pr)
  /\ starts_with_char (fun c => Ascii.eqb c "/") (params_join p pr)
  /\ (forall c, c ∈ params_join p pr -> c ∈ url).
Proof.
  intros Hhd. unfold split_params at 1.
  destruct (str_in sch uses_params) eqn:Hup; simpl;
    [|intros [= <- <-]; unfold split_params, params_join; simpl; by rewrite Hup].
  destruct (char_in url ";") eqn:Hsemi;
    [|intros [= <- <-]; unfold split_params, params_join; simpl;
      by rewrite Hup, Hsemi].
  destruct url as [|c0 url0]; [done|]. simpl in Hhd. apply Ascii.eqb_eq in Hhd as ->.
  destruct (list_elem_of_split_r ("/"%char :: url0) "/"%char) as (dir & last & Hurl & Hl);
    [by left|].
  rewrite Hurl, (splitparams_slash _ _ Hl).
  assert (Hdir : starts_with_char (fun c => Ascii.eqb c "/") (dir ++ ["/"%char])).
  { destruct dir as [|d dir]; [done|]. simpl. injection Hurl as <- _. done. }
  destruct (split_once ";" last) as [[pre post]|] eqn:Hso.
  - apply split_once_Some in Hso as [-> Hpre]. intros [= <- <-].
    assert (Hl' : "/"%char ∉ pre).
    { intros Hin. apply Hl, elem_of_app. by left. }
    unfold params_join. destruct post as [|c post]; simpl nonempty; cbv iota.
    + split_and!.
      * unfold split_params. rewrite Hup. simpl.
        destruct (char_in (dir ++ "/"%char :: pre) ";"); [|done].
        rewrite (splitparams_slash _ _ Hl'). unfold split_once.
        by rewrite (proj2 (find_None _ _) Hpre).
      * rewrite (cons_middle "/"%char), app_assoc.
        by apply starts_with_char_snoc_app.
      * intros c. rewrite !elem_of_app, !elem_of_cons, !elem_of_app. tauto.
    + assert (E : (dir ++ "/"%char :: pre) ++ py ";" ++ c :: post
                  = dir ++ "/"%char :: pre ++ ";"%char :: c :: post).
      { by rewrite <- app_assoc. }
      rewrite E. split_and!.
      * unfold split_params. rewrite Hup. simpl.
        assert (char_in (dir ++ "/"%char :: pre ++ ";"%char :: c :: post) ";" = true) as ->.
        { apply char_in_true. rewrite elem_of_app, elem_of_cons, elem_of_app.
          right. right. right. by left. }
        rewrite (splitparams_slash _ _ Hl).
        by rewrite (proj2 (split_once_Some _ _ pre (c :: post)) (conj eq_refl Hpre)).
      * rewrite (cons_middle "/"%char), app_assoc.
        by apply starts_with_char_snoc_app.
      * done.
  - intros [= <- <-]. unfold params_join. simpl. split_and!.
    + unfold split_params. rewrite Hup. simpl.
      rewrite <- Hurl, Hsemi, Hurl, (splitparams_slash _ _ Hl). by rewrite Hso.
    + by rewrite <- Hurl.
    + done.
Qed.

End ParamsStep.

Section Roundtrip.

Variable chk : str -> option str.

Implicit Types (s a b url sch n t q : str) (c d : ascii) (p : ParseResult).

(** What [urlparse] returns for a URL with a scheme and a network
    location. *)
Record absolute (p : ParseResult) : Prop := mkAbsolute {
  abs_scheme : good_scheme (scheme p);
  abs_netloc : no_delim (netloc p);
  abs_netloc_ok : netloc_error chk (netloc p) = None;
  abs_params :
    split_params (scheme p) (params_join (path p) (params p)) = (path p, params p);
  abs_path_head :
    starts_with_char (fun c => Ascii.eqb c "/") (params_join (path p) (params p));
  abs_path_query : "?"%char ∉ params_join (path p) (params p);
  abs_path_fragment : "#"%char ∉ params_join (path p) (params p);
  abs_query_fragment : "#"%char ∉ query p;
  abs_safe : safe (netloc p ++ params_join (path p) (params p) ++ query p)
}.

Lemma split_at_prefix c s a b (P : ascii -> bool) :
  split_at c s = (a, b) -> starts_with_char P s -> starts_with_char P a.
Proof.
  intros [_ [(-> & _)| ->]]%split_at_spec; [done|]. by destruct a.
Qed.

Lemma split_at_safe c s a b : split_at c s = (a, b) -> safe s -> safe a /\ safe b.
Proof.
  intros [_ [(-> & -> & _)| ->]]%split_at_spec Hs; [by split; [|constructor]|].
  apply safe_app in Hs as [Ha Hb]. apply safe_cons in Hb as [_ Hb]. done.
Qed.

Lemma split_at_other c d s a b :
  split_at c s = (a, b) -> d ∉ s -> (d ∉ a) /\ (d ∉ b).
Proof.
  intros [_ [(-> & -> & _)| ->]]%split_at_spec Hd; [by split; [|apply not_elem_of_nil]|].
  rewrite elem_of_app, elem_of_cons in Hd. naive_solver.
Qed.

Lemma urlparse_absolute u p :
  urlparse chk u = Ok p -> scheme p <> [] -> netloc p <> [] -> absolute p.
Proof.
  rewrite urlparse_steps, urlsplit_steps.
  destruct (split_scheme (prepare u)) as [sch rest] eqn:Hsch.
  destruct (split_netloc rest) as [n t] eqn:Hn.
  destruct (netloc_error chk n) eqn:Hne; [done|].
  destruct (split_at "#" t) as [t3 frag] eqn:Hfr.
  destruct (split_at "?" t3) as [pth q] eqn:Hq.
  simpl. destruct (split_params sch pth) as [p' pr] eqn:Hpar.
  intros [= <-]. simpl. intros Hs Hnn.
  pose proof (prepare_safe u) as Hsafe.
  destruct (split_scheme_spec _ _ _ Hsch Hs) as (Hgood & pre & Hu & _).
  rewrite Hu in Hsafe. apply safe_app in Hsafe as [_ [_ Hrest]%safe_cons].
  destruct (split_netloc_spec _ _ _ Hn Hnn) as (Hr & Hnd & Ht).
  rewrite Hr in Hrest. apply safe_app in Hrest as [_ [Hsn Hst]%safe_app].
  destruct (split_at_safe _ _ _ _ Hfr Hst) as [Hst3 _].
  destruct (split_at_safe _ _ _ _ Hq Hst3) as [Hspth Hsq].
  pose proof (split_at_prefix _ _ _ _ _ Hfr Ht) as Ht3.
  pose proof (split_at_prefix _ _ _ _ _ Hq Ht3) as Hpth.
  destruct (split_at_spec _ _ _ _ Hfr) as [Hf3 _].
  destruct (split_at_other _ _ _ _ _ Hq Hf3) as [Hfp Hfq].
  destruct (split_at_spec _ _ _ _ Hq) as [Hqp _].
  assert (Hhead : starts_with_char (fun c => Ascii.eqb c "/") pth).
  { destruct pth as [|c pth]; [done|]. simpl in *.
    apply not_elem_of_cons in Hfp as [Hc1 _]. apply not_elem_of_cons in Hqp as [Hc2 _].
    unfold char_in in Hpth. simpl in Hpth.
    destruct (Ascii.eqb c "/"); [done|].
    destruct (Ascii.eqb c "?") eqn:E2; [by apply Ascii.eqb_eq in E2|].
    destruct (Ascii.eqb c "#") eqn:E3; [by apply Ascii.eqb_eq in E3|]. done. }
  destruct (split_params_spec _ _ _ _ Hhead Hpar) as (Hrt & Hjh & Hsub).
  split; simpl; try done.
  - intros Hin. by apply Hqp, Hsub.
  - intros Hin. by apply Hfp, Hsub.
  - apply safe_app. split; [done|]. apply safe_app. split; [|done].
    apply Forall_forall. intros c Hc. unfold safe in Hspth.
    rewrite Forall_forall in Hspth. by apply Hspth, Hsub.
Qed.

(** The URL [geturl] builds from such components. *)
Lemma geturl_absolute p :
  absolute p -> netloc p <> [] -> fragment p = [] ->
  geturl p
  = scheme p ++ ":"%char
      :: py "//" ++ netloc p
         ++ (params_join (path p) (params p)
             ++ if nonempty (query p) then "?"%char :: query p else []).
Proof.
  intros [Hg _ _ _ Hhd _ _ _ _] Hnn Hf.
  assert (Hn1 : nonempty (netloc p) = true) by (by destruct (netloc p)).
  assert (Hs1 : nonempty (scheme p) = true).
  { destruct Hg as [Hne _ _ _]. by destruct (scheme p). }
  unfold geturl, urlunparse. fold (params_join (path p) (params p)).
  unfold urlunsplit. rewrite Hf, Hn1, Hs1. cbn [orb nonempty].
  assert ((if nonempty (params_join (path p) (params p))
              && negb (bool_decide (take 1 (params_join (path p) (params p)) = py "/"))
           then py "/" ++ params_join (path p) (params p)
           else params_join (path p) (params p))
          = params_join (path p) (params p)) as ->.
  { destruct (params_join (path p) (params p)) as [|c url]; [done|]. simpl in Hhd.
    apply Ascii.eqb_eq in Hhd as ->. reflexivity. }
  destruct (nonempty (query p)).
  - rewrite <- ?app_assoc. reflexivity.
  - rewrite app_nil_r, <- ?app_assoc. reflexivity.
Qed.

Lemma urlparse_geturl p :
  absolute p -> netloc p <> [] -> fragment p = [] -> urlparse chk (geturl p) = Ok p.
Proof.
  intros Habs Hnn Hf. rewrite (geturl_absolute p Habs Hnn Hf).
  destruct Habs as [Hg Hnd Hok Hpar Hhd Hpq Hpf Hqf Hsafe].
  apply safe_app in Hsafe as [Hsn [Hsp Hsq]%safe_app].
  set (url0 := params_join (path p) (params p)) in *.
  set (qpart := if nonempty (query p) then "?"%char :: query p else []).
  assert (Hsq' : safe qpart).
  { unfold qpart. destruct (nonempty (query p)); [|constructor].
    apply safe_cons. by split. }
  assert (Hdelim : starts_with_char (char_in (py "/?#")) (url0 ++ qpart)).
  { destruct url0 as [|c url0']; simpl.
    - unfold qpart. by destruct (nonempty (query p)).
    - simpl in Hhd. by apply Ascii.eqb_eq in Hhd as ->. }
  assert (Hnofrag : "#"%char ∉ url0 ++ qpart).
  { rewrite elem_of_app. intros [?|Hin]; [done|]. unfold qpart in Hin.
    destruct (nonempty (query p)); [|by apply elem_of_nil in Hin].
    by apply elem_of_cons in Hin as [?|?]. }
  rewrite urlparse_steps, urlsplit_steps.
  rewrite prepare_id.
  - rewrite (split_scheme_app _ _ Hg), (split_netloc_app _ _ Hnd Hdelim), Hok.
    rewrite (split_at_absent _ _ Hnofrag).
    assert (split_at "?" (url0 ++ qpart) = (url0, query p)) as ->.
    { unfold qpart. destruct (query p) as [|c q]; simpl nonempty; cbv iota.
      - rewrite app_nil_r. by apply split_at_absent.
      - by apply split_at_app. }
    simpl. fold url0. rewrite Hpar. destruct p; simpl in *. by subst.
  - apply safe_app. split; [by apply good_scheme_safe|].
    apply safe_cons. split; [done|].
    apply safe_app. split; [by repeat constructor|].
    apply safe_app. split; [done|]. by apply safe_app.
  - by apply good_scheme_head.
Qed.

End Roundtrip.




(** * Further properties of the crawl engine *)

(** ** Termination *)

Section CrawlTermination.

Variable w : world.
Variable cfg : config.

(** The URL an anchor leads to ([new_clean] in the loop over the anchors);
    [None] when the anchor is ignored or its processing raises. *)
Definition link_new_clean (clean_url new_raw : str) : option str :=
  if nonempty new_raw
     && negb (startswith new_raw (py "mailto:")
              || startswith new_raw (py "javascript:")
              || startswith new_raw (py "#"))
  then
    match (new_url <-! urljoin w clean_url new_raw;
           parsed_new <-! urlparse (check_bracketed_netloc w) new_url;
           new_url <-! (if nonempty (scheme parsed_new) then Ok new_url
                        else (pc <-! urlparse (check_bracketed_netloc w) clean_url;
                              Ok (geturl (replace_scheme parsed_new (scheme pc)))));
           p <-! urlparse (check_bracketed_netloc w) new_url;
           Ok (geturl (replace_fragment p [])))%result with
    | Ok new_clean => Some new_clean
    | Raise _ => None
    end
  else None.

(** The anchors the loop sees on the page at [clean_url]. *)
Definition hrefs_of (clean_url : str) : list str :=
  match http_get w clean_url with
  | GetResponse _ (Ok (_, hrefs)) => hrefs
  | _ => []
  end.

Lemma process_link_target vis clean depth tv href :
  (process_link w cfg vis clean depth tv href).1 = tv
  \/ exists u, link_new_clean clean href = Some u
              /\ (process_link w cfg vis clean depth tv href).1
                 = tv ++ [(u, (depth + 1)%Z)].
Proof.
  unfold process_link, link_attempt, link_new_clean.
  destruct (nonempty href && _); [|by left].
  destruct (urljoin w clean href) as [new_url|]; simpl; [|by left].
  destruct (urlparse _ new_url) as [parsed_new|]; simpl; [|by left].
  match goal with |- context [rbind ?r _] => destruct r as [new_url'|] end;
    simpl; [|by left].
  destruct (urlparse _ new_url') as [p|]; simpl; [|by left].
  case_bool_decide; [by left|].
  destruct (is_same_domain _ _ _) as [[|]|]; simpl; try by left.
  destruct (is_within_depth _ _ _ _) as [[|]|]; simpl; try by left.
  destruct (ignore_epubs cfg && _); [by left|].
  case_bool_decide; [by left|].
  right. eexists. split; reflexivity.
Qed.

(** An upper bound on the number of iterations an entry for [u] can
    cause when [k] more levels of links may be followed. *)
Fixpoint weight (k : nat) (u : str) : nat :=
  S match k with
    | O => 0
    | S k' =>
        match normalize w u with
        | Ok clean_url =>
            sum_list_with
              (fun href => from_option (weight k') 0 (link_new_clean clean_url href))
              (hrefs_of clean_url)
        | Raise _ => 0
        end
    end.

Definition budget (depth : Z) : nat := Z.to_nat (max_depth cfg - depth).

Definition frontier_weight (tv : list (str * Z)) : nat :=
  sum_list_with (fun e => weight (budget e.2) e.1) tv.

Lemma frontier_weight_app tv1 tv2 :
  frontier_weight (tv1 ++ tv2) = frontier_weight tv1 + frontier_weight tv2.
Proof. apply sum_list_with_app. Qed.

Lemma process_links_weight vis clean depth hrefs tv :
  exists new,
    (process_links w cfg vis clean depth hrefs tv).1 = tv ++ new
    /\ frontier_weight new
       <= sum_list_with
            (fun href => from_option (weight (budget (depth + 1))) 0
                           (link_new_clean clean href))
            hrefs.
Proof.
  revert tv. induction hrefs as [|href hrefs IH]; intros tv; simpl.
  - exists []. by rewrite app_nil_r.
  - pose proof (process_link_target vis clean depth tv href) as Hl.
    destruct (process_link w cfg vis clean depth tv href) as [tv' [e|]]; simpl in *.
    + destruct Hl as [->|(u & Hu & ->)].
      * exists []. rewrite app_nil_r. split; [done|]. unfold frontier_weight. simpl. lia.
      * exists [(u, (depth + 1)%Z)]. split; [done|].
        rewrite Hu. unfold frontier_weight. simpl. lia.
    + destruct Hl as [->|(u & Hu & ->)].
      * destruct (IH tv) as (new & -> & Hle). exists new. split; [done|]. lia.
      * destruct (IH (tv ++ [(u, (depth + 1)%Z)])) as (new & -> & Hle).
        exists ((u, (depth + 1)%Z) :: new). rewrite <- app_assoc. split; [done|].
        rewrite Hu. unfold frontier_weight in *. simpl. lia.
Qed.

Lemma weight_pos k u : 0 < weight k u.
Proof. destruct k; simpl; lia. Qed.

Lemma crawl_step_decreases st st' :
  crawl_step w cfg st = Next st' ->
  frontier_weight (to_visit st') < frontier_weight (to_visit st).
Proof.
  unfold crawl_step. destruct (to_visit st) as [|[curr_url depth] rest]; [done|].
  destruct (normalize w curr_url) as [clean_url|] eqn:Hnorm; [|done].
  unfold rbind at 1.
  destruct (skip_entry w cfg (visited st) clean_url) as [[|]|]; [| |done].
  - intros [= <-]. unfold frontier_weight. simpl.
    pose proof (weight_pos (budget depth) curr_url). lia.
  - unfold rbind. destruct (ignore_epubs cfg && _).
    + destruct (rich_print w _); [done|].
      intros [= <-]. unfold frontier_weight. simpl.
      pose proof (weight_pos (budget depth) curr_url). lia.
    + destruct (rich_print w _); [done|].
      destruct (process_page _ _ _ _ _ _) as [body tv'] eqn:Hpp.
      intros [= <-]. simpl.
      assert (Hkeep : frontier_weight rest
                      < frontier_weight ((curr_url, depth) :: rest)).
      { unfold frontier_weight. simpl.
        pose proof (weight_pos (budget depth) curr_url). lia. }
      revert Hpp. unfold process_page.
      destruct (endswith _ _).
      { destruct (include_pdfs cfg); [|by intros [= _ <-]].
        destruct (process_web_pdf w clean_url); by intros [= _ <-]. }
      destruct (http_get w clean_url) as [e|ct soup] eqn:Hget; [by intros [= _ <-]|].
      destruct (negb _); [by intros [= _ <-]|].
      destruct soup as [[text_raw hrefs]|e]; [|by intros [= _ <-]].
      destruct (depth <? max_depth cfg)%Z eqn:Hlt; [|by intros [= _ <-]].
      apply Z.ltb_lt in Hlt.
      destruct (process_links_weight (visited st ∪ {[clean_url]}) clean_url depth
                  hrefs rest) as (new & Hnew & Hle).
      destruct (process_links w cfg _ clean_url depth hrefs rest) as [tv'' exc].
      simpl in Hnew. subst tv''.
      intros Htv'. assert (tv' = rest ++ new) as ->.
      { destruct exc; by injection Htv' as _ <-. }
      clear Htv'.
      rewrite frontier_weight_app. unfold frontier_weight at 3. simpl.
      assert (Hb : budget depth = S (budget (depth + 1))).
      { unfold budget. lia. }
      rewrite Hb. simpl. rewrite Hnorm. unfold hrefs_of. rewrite Hget.
      fold (frontier_weight rest). lia.
Qed.

Lemma crawl_loop_stops st n :
  frontier_weight (to_visit st) < n -> (crawl_loop w cfg n st).2 <> Running.
Proof.
  revert st. induction n as [|n IH]; intros st Hlt; [lia|]. simpl.
  destruct (crawl_step w cfg st) as [st'| |e] eqn:Hstep; simpl; [|done|done].
  apply IH. apply crawl_step_decreases in Hstep. lia.
Qed.

Lemma crawl_loop_more_fuel st n m :
  (crawl_loop w cfg n st).2 <> Running ->
  crawl_loop w cfg (n + m) st = crawl_loop w cfg n st.
Proof.
  revert st. induction n as [|n IH]; intros st; simpl; [done|].
  destruct (crawl_step w cfg st) as [st'| |e]; simpl; auto.
Qed.

End CrawlTermination.

(** The budget that suffices: one more than the weight of the initial
    frontier. *)
Lemma crawl_budget_suffices (w : world) (cfg : config) :
  crawl_and_extract_text w cfg
    (S (frontier_weight w cfg (to_visit (initial_state cfg)))) <> None.
Proof.
  pose proof (crawl_loop_stops w cfg (initial_state cfg)
                (S (frontier_weight w cfg (to_visit (initial_state cfg))))
                (Nat.lt_succ_diag_r _)) as Hstop.
  unfold crawl_and_extract_text. destruct (rich_print w _); [done|].
  destruct (crawl_loop w cfg _ (initial_state cfg)) as [st [| |e]]; done.
Qed.

(** X1.  Every crawl terminates: for every world and configuration there
    is a number of iterations after which the loop has ended (the frontier
    is empty, or an exception left the loop), and a larger bound gives the
    same result. *)
Theorem crawl_terminates (w : world) (cfg : config) :
  exists fuel,
    crawl_and_extract_text w cfg fuel <> None
    /\ forall more, crawl_and_extract_text w cfg (fuel + more)
                    = crawl_and_extract_text w cfg fuel.
Proof.
  exists (S (frontier_weight w cfg (to_visit (initial_state cfg)))).
  pose proof (crawl_loop_stops w cfg (initial_state cfg)
                (S (frontier_weight w cfg (to_visit (initial_state cfg))))
                (Nat.lt_succ_diag_r _)) as Hstop.
  split.
  - unfold crawl_and_extract_text. destruct (rich_print w _); [done|].
    destruct (crawl_loop w cfg _ (initial_state cfg)) as [st [| |e]]; done.
  - intros more. unfold crawl_and_extract_text.
    by rewrite (crawl_loop_more_fuel w cfg _ _ more Hstop).
Qed.

(** ** No exception leaves a crawl that starts at a URL with a host *)

Section ParseSafe.

Variable chk : str -> option str.

Lemma split_scheme_safe (s sch rest : str) :
  split_scheme s = (sch, rest) -> safe s -> safe rest.
Proof.
  unfold split_scheme.
  destruct (find ":" s) as [i|]; [|by intros [= _ <-]].
  destruct s as [|c0 s0] eqn:Hs; [by intros [= _ <-]|]. rewrite <- Hs.
  destruct (_ && _); intros [= _ <-] Hsafe; [|done]. by apply Forall_drop.
Qed.

Lemma split_netloc_safe (s n t : str) :
  split_netloc s = (n, t) -> safe s -> safe n /\ safe t.
Proof.
  unfold split_netloc, _splitnetloc. case_bool_decide.
  - intros [= <- <-] Hsafe. split; [by apply Forall_drop, Forall_take|by apply Forall_drop].
  - intros [= <- <-] Hsafe. by split; [constructor|].
Qed.

Lemma removelast_subseteq (s : str) c : c ∈ removelast s -> c ∈ s.
Proof.
  induction s as [|d s IH]; simpl; [done|]. destruct s as [|d' s]; [by intros ?%elem_of_nil|].
  intros [->|Hc]%elem_of_cons; [by left|]. right. by apply IH.
Qed.

Lemma split_params_safe (sch url p pr : str) :
  split_params sch url = (p, pr) -> safe url -> safe (params_join p pr).
Proof.
  intros Hsp Hsafe.
  assert (Hsub : forall c, c ∈ p \/ c ∈ pr -> c ∈ url).
  { revert Hsp. unfold split_params, _splitparams.
    destruct (_ && _); [|intros [= <- <-] c [?|?%elem_of_nil]; done].
    destruct (char_in url "/").
    - destruct (find_from _ _ _); intros [= <- <-] c [Hc|Hc].
      + by eapply subseteq_take.
      + by eapply subseteq_drop.
      + done.
      + by apply elem_of_nil in Hc.
    - destruct (find _ _); intros [= <- <-] c [Hc|Hc].
      + by eapply subseteq_take.
      + by eapply subseteq_drop.
      + by apply removelast_subseteq.
      + done. }
  unfold safe in *. rewrite Forall_forall in Hsafe. apply Forall_forall. intros c Hc.
  unfold params_join in Hc. destruct (nonempty pr).
  - apply elem_of_app in Hc as [Hc|Hc]; [by apply Hsafe, Hsub; left|].
    apply elem_of_cons in Hc as [->|Hc]; [done|]. by apply Hsafe, Hsub; right.
  - by apply Hsafe, Hsub; left.
Qed.

(** The components [urlparse] returns hold no tab, carriage return or
    line feed. *)
Lemma urlparse_safe (u : str) (p : ParseResult) :
  urlparse chk u = Ok p ->
  safe (netloc p) /\ safe (params_join (path p) (params p)) /\ safe (query p).
Proof.
  rewrite urlparse_steps, urlsplit_steps.
  destruct (split_scheme (prepare u)) as [sch rest] eqn:Hsch.
  destruct (split_netloc rest) as [n t] eqn:Hn.
  destruct (netloc_error chk n); [done|].
  destruct (split_at "#" t) as [t3 frag] eqn:Hfr.
  destruct (split_at "?" t3) as [pth q] eqn:Hq.
  cbn [s_scheme s_path s_netloc s_query s_fragment].
  destruct (split_params sch pth) as [p' pr] eqn:Hpar.
  intros [= <-]. simpl.
  pose proof (split_scheme_safe _ _ _ Hsch (prepare_safe u)) as Hrest.
  destruct (split_netloc_safe _ _ _ Hn Hrest) as [Hsn Hst].
  destruct (split_at_safe _ _ _ _ Hfr Hst) as [Hst3 _].
  destruct (split_at_safe _ _ _ _ Hq Hst3) as [Hspth Hsq].
  split_and!; [done| |done]. by eapply split_params_safe.
Qed.

(** A URL without scheme but with a network location: the string the
    loop builds for it, [http://] followed by its [geturl], parses. *)
Lemma urlparse_http_prefixed (p : ParseResult) :
  scheme p = [] -> netloc p <> [] ->
  safe (netloc p) -> safe (params_join (path p) (params p)) -> safe (query p) ->
  exists c, urlparse chk (py "http://" ++ geturl (replace_fragment p [])) = Ok c.
Proof.
  intros Hs Hn Hsn Hsp Hsq.
  assert (Hform : exists rest,
             safe rest
             /\ py "http://" ++ geturl (replace_fragment p [])
                = py "http" ++ ":"%char :: py "//" ++ [] ++ "/"%char :: rest).
  { unfold geturl, urlunparse. cbn [scheme netloc path params query fragment replace_fragment].
    fold (params_join (path p) (params p)). unfold urlunsplit. rewrite Hs.
    assert (nonempty (netloc p) = true) as -> by (by destruct (netloc p)).
    cbn [orb nonempty].
    set (url0 := if nonempty (params_join (path p) (params p))
                    && negb (bool_decide (take 1 (params_join (path p) (params p)) = py "/"))
                 then py "/" ++ params_join (path p) (params p)
                 else params_join (path p) (params p)).
    assert (Hurl0 : safe url0).
    { unfold url0. destruct (_ && _); [|done]. apply safe_app. split; [|done].
      by repeat constructor. }
    destruct (nonempty (query p)).
    - eexists. split; [|reflexivity]. apply safe_cons. split; [done|].
      apply safe_app. split; [by apply safe_app|]. apply safe_cons. by split.
    - eexists. split; [|reflexivity]. apply safe_cons. split; [done|].
      by apply safe_app. }
  destruct Hform as (rest & Hrest & ->).
  assert (Hg : good_scheme (py "http")).
  { split; [done|done| |done]. by repeat constructor. }
  rewrite urlparse_steps, urlsplit_steps, prepare_id.
  - rewrite (split_scheme_app _ _ Hg).
    rewrite (split_netloc_app [] ("/"%char :: rest)); [|constructor|done].
    change (netloc_error chk []) with (@None str).
    destruct (split_at "#" ("/"%char :: rest)) as [t3 frag].
    destruct (split_at "?" t3) as [pth q].
    cbn [s_scheme s_path s_netloc s_query s_fragment].
    destruct (split_params (py "http") pth) as [p' pr]. by eexists.
  - apply safe_app. split; [by apply good_scheme_safe|].
    apply safe_cons. split; [done|]. apply safe_app. split; [by repeat constructor|].
    apply safe_cons. by split.
  - by apply good_scheme_head.
Qed.

End ParseSafe.

Section CrawlNoRaise.

Variable w : world.
Variable cfg : config.

(** Normalizing a URL that has a network location succeeds, and the
    result parses. *)
Lemma normalize_host (u : str) (p : ParseResult) :
  urlparse (check_bracketed_netloc w) u = Ok p -> netloc p <> [] ->
  exists clean_url c,
    normalize w u = Ok clean_url
    /\ urlparse (check_bracketed_netloc w) clean_url = Ok c.
Proof.
  intros Hp Hn. destruct (scheme p) as [|s0 sch0] eqn:Hs.
  - destruct (urlparse_safe _ u p Hp) as (Hsn & Hsp & Hsq).
    destruct (urlparse_http_prefixed (check_bracketed_netloc w) p Hs Hn Hsn Hsp Hsq)
      as [c Hc].
    exists (py "http://" ++ geturl (replace_fragment p [])), c. split; [|done].
    unfold normalize. rewrite Hp. unfold rbind. by rewrite Hs.
  - assert (Hs' : scheme p <> []) by (by rewrite Hs).
    pose proof (urlparse_absolute _ u p Hp Hs' Hn) as Habs.
    assert (Habs' : absolute (check_bracketed_netloc w) (replace_fragment p [])).
    { by destruct Habs. }
    exists (geturl (replace_fragment p [])), (replace_fragment p []). split.
    + unfold normalize. rewrite Hp. unfold rbind. by rewrite Hs.
    + by apply urlparse_geturl.
Qed.

(** Every frontier entry has the host of the base URL. *)
Definition frontier_hosts (b : ParseResult) (st : crawl_state) : Prop :=
  Forall (fun e => exists p, urlparse (check_bracketed_netloc w) e.1 = Ok p
                             /\ netloc p = netloc b)
         (to_visit st).

Lemma in_scope_host (b : ParseResult) (u : str) :
  urlparse (check_bracketed_netloc w) (base_url cfg) = Ok b ->
  in_scope w cfg u ->
  exists p, urlparse (check_bracketed_netloc w) u = Ok p /\ netloc p = netloc b.
Proof.
  intros Hb [Hsame _]. unfold is_same_domain in Hsame. rewrite Hb in Hsame.
  unfold rbind in Hsame. destruct (urlparse _ u) as [p|]; [|done].
  injection Hsame as Heq. apply bool_decide_eq_true in Heq. by exists p.
Qed.

Lemma crawl_step_hosts (b : ParseResult) st st' :
  urlparse (check_bracketed_netloc w) (base_url cfg) = Ok b ->
  frontier_hosts b st -> crawl_step w cfg st = Next st' -> frontier_hosts b st'.
Proof.
  intros Hb Hh Hstep. unfold frontier_hosts in *.
  destruct (crawl_step_spec w cfg st st' Hstep) as (curr & depth & rest & Htv & Hcases).
  rewrite Htv in Hh. apply Forall_cons in Hh as [_ Hrest].
  destruct Hcases as [->|(clean & _ & _ & _ & _ & [[-> _]|Hnew])]; [done|done|].
  destruct Hnew as (new & body & xml & -> & [Hall _] & _).
  apply Forall_app. split; [done|].
  eapply Forall_impl; [exact Hall|]. intros e (_ & _ & _ & Hsc).
  by eapply in_scope_host.
Qed.

(** The messages that the crawl prints outside its [try] blocks. *)
Definition progress_message (message : str) : Prop :=
  message = crawling_message cfg
  \/ (exists clean_url, message = skipping_message clean_url)
  \/ (exists depth clean_url, message = processing_message depth clean_url)
  \/ message = py "Crawl finished.".

Lemma crawl_step_error (b : ParseResult) st e :
  urlparse (check_bracketed_netloc w) (base_url cfg) = Ok b -> netloc b <> [] ->
  frontier_hosts b st -> crawl_step w cfg st = Error e ->
  exists message, progress_message message /\ rich_print w message = Some e.
Proof.
  intros Hb Hn Hh. unfold crawl_step.
  destruct (to_visit st) as [|[curr depth] rest] eqn:Htv; [done|].
  unfold frontier_hosts in Hh. rewrite Htv in Hh.
  apply Forall_cons in Hh as [(p & Hp & Hnet) _]. simpl in Hp.
  destruct (normalize_host curr p Hp) as (clean & c & Hnorm & Hc);
    [by rewrite Hnet|].
  rewrite Hnorm. unfold rbind at 1.
  assert (Hskip : exists skip, skip_entry w cfg (visited st) clean = Ok skip).
  { unfold skip_entry, is_same_domain, is_within_depth. rewrite Hb, Hc. unfold rbind.
    case_bool_decide; [by eexists|].
    destruct (negb (bool_decide (netloc b = netloc c))); [by eexists|].
    destruct (negb (startswith _ _)); by eexists. }
  destruct Hskip as [skip ->]. unfold rbind. destruct skip; [done|].
  destruct (ignore_epubs cfg && _).
  - destruct (rich_print w (skipping_message clean)) as [e'|] eqn:Hprint; [|done].
    intros [= <-]. exists (skipping_message clean). split; [|done].
    right. left. by eexists.
  - destruct (rich_print w (processing_message depth clean)) as [e'|] eqn:Hprint.
    + intros [= <-]. exists (processing_message depth clean). split; [|done].
      right. right. left. by do 2 eexists.
    + by destruct (process_page _ _ _ _ _ _).
Qed.

Lemma crawl_loop_error (b : ParseResult) n st e :
  urlparse (check_bracketed_netloc w) (base_url cfg) = Ok b -> netloc b <> [] ->
  frontier_hosts b st -> (crawl_loop w cfg n st).2 = Raised e ->
  exists message, progress_message message /\ rich_print w message = Some e.
Proof.
  intros Hb Hn. revert st. induction n as [|n IH]; intros st Hh; simpl; [done|].
  destruct (crawl_step w cfg st) as [st'| |e'] eqn:Hstep; simpl.
  - apply IH. by eapply crawl_step_hosts.
  - done.
  - intros [= <-]. by eapply crawl_step_error.
Qed.

End CrawlNoRaise.

(** X2.  Failures are page-scoped: when the base URL has a host (a
    non-empty network location), the only exception that leaves the crawl
    is that of printing one of its progress messages ([Crawling],
    [Skipping EPUB], [Processing], [Crawl finished.]), which are printed
    outside the [try] blocks.  With enough iterations
    [crawl_and_extract_text] returns its result or raises that exception,
    whatever the pages, the links and the downloads do. *)
Theorem crawl_returns (w : world) (cfg : config) (b : ParseResult) :
  urlparse (check_bracketed_netloc w) (base_url cfg) = Ok b ->
  netloc b <> [] ->
  exists fuel,
    (exists result, crawl_and_extract_text w cfg fuel = Some (Ok result))
    \/ (exists message e,
          progress_message cfg message /\ rich_print w message = Some e
          /\ crawl_and_extract_text w cfg fuel = Some (Raise e)).
Proof.
  intros Hb Hn. pose proof (crawl_budget_suffices w cfg) as Hsome.
  set (fuel := S (frontier_weight w cfg (to_visit (initial_state cfg)))) in *.
  clearbody fuel.
  exists fuel. unfold crawl_and_extract_text in *.
  destruct (rich_print w (crawling_message cfg)) as [e|] eqn:Hfirst.
  { right. exists (crawling_message cfg), e. split_and!; try done. by left. }
  assert (Hh : frontier_hosts w b (initial_state cfg)).
  { unfold frontier_hosts. simpl. constructor; [|constructor]. by exists b. }
  pose proof (fun e => crawl_loop_error w cfg b fuel (initial_state cfg) e Hb Hn Hh)
    as Hne.
  destruct (crawl_loop w cfg fuel (initial_state cfg)) as [st [| |e]].
  - done.
  - unfold rbind, printing.
    destruct (rich_print w (py "Crawl finished.")) as [e|] eqn:Hlast.
    + right. exists (py "Crawl finished."), e. split_and!; try done.
      by do 3 right.
    + left. by eexists.
  - destruct (Hne e eq_refl) as (message & Hm & Hp).
    right. by exists message, e.
Qed.

(** Witness of [crawl_returns]: the site [two_paths]. *)
Lemma crawl_returns_witness :
  urlparse (check_bracketed_netloc Examples.two_paths) (base_url Examples.two_paths_config)
  = Ok (mkParseResult (py "http") (py "h") (py "/d") [] [] [])
  /\ exists fuel,
      (exists result,
          crawl_and_extract_text Examples.two_paths Examples.two_paths_config fuel
          = Some (Ok result))
      \/ (exists message e,
            progress_message Examples.two_paths_config message
            /\ rich_print Examples.two_paths message = Some e
            /\ crawl_and_extract_text Examples.two_paths Examples.two_paths_config fuel
               = Some (Raise e)).
Proof.
  assert (H : urlparse (check_bracketed_netloc Examples.two_paths)
                (base_url Examples.two_paths_config)
              = Ok (mkParseResult (py "http") (py "h") (py "/d") [] [] []))
    by reflexivity.
  split; [exact H|].
  refine (crawl_returns Examples.two_paths Examples.two_paths_config _ H _).
  simpl. discriminate.
Defined.

(** ** What the page records hold *)

Section PageRecords.

Variable w : world.
Variable cfg : config.

Definition page_xml_of (clean_url body : str) : str :=
  nl ++ py "<page " ++ attr (py "url") (escape_xml clean_url) ++ py ">"
     ++ body ++ py "</page>".

(** The body of a record is what the [try] block of its iteration and
    the handler of that block gave, for the visited set and the frontier
    of that iteration. *)
Definition body_of_page (clean_url : str) (depth : Z) (body : str) : Prop :=
  exists vis tv, body = (process_page w cfg vis tv clean_url depth).1.

Lemma process_page_frontier vis tv clean depth :
  (process_page w cfg vis tv clean depth).2 = tv \/ (depth < max_depth cfg)%Z.
Proof.
  unfold process_page.
  destruct (endswith _ _).
  { destruct (include_pdfs cfg); [|by left]. destruct (process_web_pdf w clean); by left. }
  destruct (http_get w clean) as [e|ct soup]; [by left|].
  destruct (negb _); [by left|]. destruct soup as [[text_raw hrefs]|e]; [|by left].
  destruct (depth <? max_depth cfg)%Z eqn:E; [|by left].
  right. by apply Z.ltb_lt.
Qed.

Lemma crawl_step_pages st st' :
  crawl_step w cfg st = Next st' ->
  exists curr_url depth rest,
    to_visit st = (curr_url, depth) :: rest
    /\ (to_visit st' = rest \/ (depth < max_depth cfg)%Z)
    /\ (pages st' = pages st
        \/ exists clean_url body,
            normalize w curr_url = Ok clean_url
            /\ ignore_epubs cfg && endswith (lower clean_url) (py ".epub") = false
            /\ body_of_page clean_url depth body
            /\ pages st'
               = pages st ++ [mkPage clean_url depth body (page_xml_of clean_url body)]).
Proof.
  unfold crawl_step. destruct (to_visit st) as [|[curr_url depth] rest]; [done|].
  intros Hstep. exists curr_url, depth, rest. split; [done|]. revert Hstep.
  destruct (normalize w curr_url) as [clean_url|]; [|done]. unfold rbind at 1.
  destruct (skip_entry w cfg (visited st) clean_url) as [[|]|]; [| |done].
  - intros [= <-]. simpl. split; by left.
  - unfold rbind. destruct (ignore_epubs cfg && _) eqn:Hepub.
    + destruct (rich_print w _); [done|].
      intros [= <-]. simpl. split; by left.
    + destruct (rich_print w _); [done|].
      pose proof (process_page_frontier (visited st ∪ {[clean_url]}) rest clean_url depth)
        as Hfr.
      assert (Hbody : body_of_page clean_url depth
                (process_page w cfg (visited st ∪ {[clean_url]}) rest clean_url depth).1).
      { by do 2 eexists. }
      destruct (process_page _ _ _ _ _ _) as [body tv']. simpl in Hbody, Hfr.
      intros [= <-]. simpl. split; [done|]. right. exists clean_url, body.
      by split_and!.
Qed.

(** The invariant on records and depths. *)
Record records_inv (st : crawl_state) : Prop := mkRecordsInv {
  ri_records :
    Forall (fun r => body_of_page (page_url r) (page_depth r) (page_body r)
                     /\ page_xml r = page_xml_of (page_url r) (page_body r)
                     /\ ignore_epubs cfg && endswith (lower (page_url r)) (py ".epub")
                        = false)
           (pages st);
  ri_page_depth :
    Forall (fun r => (0 <= page_depth r)%Z
                     /\ (page_depth r = 0 \/ page_depth r <= max_depth cfg)%Z)
           (pages st);
  ri_frontier_depth :
    Forall (fun e => (0 <= e.2)%Z /\ (e.2 = 0 \/ e.2 <= max_depth cfg)%Z) (to_visit st)
}.

Lemma records_inv_initial : records_inv (initial_state cfg).
Proof.
  split; simpl; [constructor|constructor|].
  constructor; [simpl; lia|constructor].
Qed.

Lemma records_inv_step st st' :
  records_inv st -> crawl_step w cfg st = Next st' -> records_inv st'.
Proof.
  intros [Hrec Hpd Hfd] Hstep.
  destruct (crawl_step_pages st st' Hstep)
    as (curr_url & depth & rest & Htv & Hrest & Hpages).
  destruct (crawl_step_spec w cfg st st' Hstep)
    as (curr' & depth' & rest' & Htv' & Hcases).
  rewrite Htv in Htv'. injection Htv' as <- <- <-.
  rewrite Htv in Hfd. apply Forall_cons in Hfd as [Hd Hfd]. simpl in Hd.
  assert (Hfd' : Forall (fun e => (0 <= e.2)%Z /\ (e.2 = 0 \/ e.2 <= max_depth cfg)%Z)
                        (to_visit st')).
  { destruct Hcases as [->|(clean & _ & _ & _ & _ & [[-> _]|Hnew])]; [done|done|].
    destruct Hnew as (new & body & xml & Hnew & [Hall _] & _).
    destruct Hrest as [Hrest|Hlt].
    - by rewrite Hrest.
    - rewrite Hnew. apply Forall_app. split; [done|].
      eapply Forall_impl; [exact Hall|]. intros e (-> & _). lia. }
  destruct Hpages as [Hsame|(clean & body & _ & Hepub & Hbody & Hnew)].
  - split; [by rewrite Hsame|by rewrite Hsame|done].
  - split; [| |done]; rewrite Hnew; apply Forall_app; (split; [done|]).
    + constructor; [|constructor]. by split_and!.
    + constructor; [|constructor]. exact Hd.
Qed.

Lemma records_inv_reachable n : records_inv (crawl_state_at w cfg n).
Proof.
  unfold crawl_state_at. generalize (initial_state cfg), records_inv_initial.
  induction n as [|n IH]; intros st Hinv; simpl; [done|].
  destruct (crawl_step w cfg st) as [st'| |e] eqn:Hstep; simpl; [|done|done].
  apply IH. by eapply records_inv_step.
Qed.

End PageRecords.

(** X3.  EPUB skip: when [ignore_epubs] is set, no page record of any
    crawl has a URL that ends in [.epub] (in any letter case). *)
Theorem epub_never_recorded (w : world) (cfg : config) (n : nat) :
  ignore_epubs cfg = true ->
  Forall (fun r => endswith (lower (page_url r)) (py ".epub") = false)
         (pages (crawl_state_at w cfg n)).
Proof.
  intros Hig. destruct (records_inv_reachable w cfg n) as [Hrec _ _].
  eapply Forall_impl; [exact Hrec|]. intros r (_ & _ & H). by rewrite Hig in H.
Qed.

Lemma epub_never_recorded_witness :
  ignore_epubs Examples.two_paths_config = true
  /\ Forall (fun r => endswith (lower (page_url r)) (py ".epub") = false)
           (pages (crawl_state_at Examples.two_paths Examples.two_paths_config 10)).
Proof.
  split; [reflexivity|].
  exact (epub_never_recorded Examples.two_paths Examples.two_paths_config 10 eq_refl).
Defined.

(** X4.  PDF disabled: when [include_pdfs] is off, every page record
    whose URL ends in [.pdf] holds the skip marker and nothing else. *)
Theorem pdf_disabled_marker (w : world) (cfg : config) (n : nat) :
  include_pdfs cfg = false ->
  Forall (fun r => endswith (lower (page_url r)) (py ".pdf") = true ->
                   page_body r = nl ++ py "<skipped>PDF ignored by config</skipped>" ++ nl)
         (pages (crawl_state_at w cfg n)).
Proof.
  intros Hpdf. destruct (records_inv_reachable w cfg n) as [Hrec _ _].
  eapply Forall_impl; [exact Hrec|]. intros r ((vis & tv & Hb) & _) Hend.
  rewrite Hb. unfold process_page. by rewrite Hend, Hpdf.
Qed.

(** A page that links to a PDF, crawled with PDFs disabled. *)
Definition pdf_link_site : world :=
  Examples.world_of_site [ (py "http://h/d", [py "http://h/d/Doc.PDF"]) ].

Definition pdf_disabled_config : config := mkConfig (py "http://h/d") 1 false true.

Lemma pdf_disabled_marker_witness :
  include_pdfs pdf_disabled_config = false
  /\ map page_url (pages (crawl_state_at pdf_link_site pdf_disabled_config 5))
     = [py "http://h/d"; py "http://h/d/Doc.PDF"]
  /\ Forall (fun r => endswith (lower (page_url r)) (py ".pdf") = true ->
                     page_body r
                     = nl ++ py "<skipped>PDF ignored by config</skipped>" ++ nl)
           (pages (crawl_state_at pdf_link_site pdf_disabled_config 5)).
Proof.
  split; [reflexivity|]. split; [vm_compute; reflexivity|].
  exact (pdf_disabled_marker pdf_link_site pdf_disabled_config 5 eq_refl).
Defined.

(** When the loop over the anchors ends with an exception, it is that of
    printing the message about an anchor whose processing raised. *)
Lemma process_links_exception (w : world) (cfg : config) vis clean depth hrefs tv tv' e :
  process_links w cfg vis clean depth hrefs tv = (tv', Some e) ->
  exists new_raw le,
    new_raw ∈ hrefs /\ rich_print w (link_error_message new_raw le) = Some e.
Proof.
  revert tv. induction hrefs as [|href hrefs IH]; intros tv; simpl; [done|].
  destruct (process_link w cfg vis clean depth tv href) as [tv1 [e1|]] eqn:Hl.
  - intros [= <- <-]. unfold process_link in Hl.
    destruct (link_attempt w cfg vis clean depth tv href) as [?|le]; [done|].
    injection Hl as _ Hp. exists href, le. split; [by left|done].
  - intros H. destruct (IH _ H) as (new_raw & le & Hin & Hp).
    exists new_raw, le. split; [by right|done].
Qed.

(** X5.  Every page record holds the outcome of the request for its own
    URL, wrapped in its [<page url=...>] element: for a URL that does not
    end in [.pdf], the error marker with the escaped message when the
    request or the parsing fails, the skip marker with the escaped content
    type when the response is not HTML, and otherwise the escaped page
    text, followed by an error marker only when the links of the page were
    followed and printing the message about a link that could not be
    processed raised. *)
Theorem page_record_content (w : world) (cfg : config) (n : nat) :
  Forall (fun r =>
            page_xml r
            = nl ++ py "<page " ++ attr (py "url") (escape_xml (page_url r)) ++ py ">"
                 ++ page_body r ++ py "</page>"
            /\ (endswith (lower (page_url r)) (py ".pdf") = false ->
                match http_get w (page_url r) with
                | GetRaised e => page_body r = page_error e
                | GetResponse content_type soup =>
                    if contains (lower (default [] content_type)) (py "text/html")
                    then match soup with
                         | Ok (text_raw, hrefs) =>
                             page_body r = nl ++ escape_xml text_raw ++ nl
                             \/ ((page_depth r < max_depth cfg)%Z
                                 /\ exists new_raw le e,
                                      new_raw ∈ hrefs
                                      /\ rich_print w (link_error_message new_raw le)
                                         = Some e
                                      /\ page_body r
                                         = (nl ++ escape_xml text_raw ++ nl)
                                             ++ page_error e)
                         | Raise e => page_body r = page_error e
                         end
                    else page_body r
                         = nl ++ py "<skipped>Non-HTML: "
                              ++ escape_xml (default (py "N/A") content_type)
                              ++ py "</skipped>" ++ nl
                end))
         (pages (crawl_state_at w cfg n)).
Proof.
  destruct (records_inv_reachable w cfg n) as [Hrec _ _].
  eapply Forall_impl; [exact Hrec|]. intros r ((vis & tv & Hb) & Hx & _).
  split; [exact Hx|].
  intros Hend. rewrite Hb. unfold process_page. rewrite Hend.
  destruct (http_get w (page_url r)) as [e|ct soup]; [done|].
  destruct (contains _ _); simpl; [|done].
  destruct soup as [[text_raw hrefs]|e]; [|done].
  destruct (page_depth r <? max_depth cfg)%Z eqn:Hlt; [|by left].
  destruct (process_links w cfg vis (page_url r) (page_depth r) hrefs tv)
    as [tv' [e|]] eqn:Hlinks; [|by left].
  right. split; [by apply Z.ltb_lt|].
  destruct (process_links_exception _ _ _ _ _ _ _ _ _ Hlinks) as (new_raw & le & Hin & Hp).
  by exists new_raw, le, e.
Qed.

(** X6.  Link depth: every page record was reached through at most
    [max_depth] links from the base URL (depth 0 is the base URL itself),
    and so was every entry waiting in the frontier. *)
Theorem link_depth_bounded (w : world) (cfg : config) (n : nat) :
  Forall (fun r => (0 <= page_depth r)%Z
                   /\ (page_depth r = 0 \/ page_depth r <= max_depth cfg)%Z)
         (pages (crawl_state_at w cfg n))
  /\ Forall (fun e => (0 <= e.2)%Z /\ (e.2 = 0 \/ e.2 <= max_depth cfg)%Z)
            (to_visit (crawl_state_at w cfg n)).
Proof. by destruct (records_inv_reachable w cfg n). Qed.

Section SinglePage.

Variable w : world.
Variable cfg : config.
Hypothesis Hdepth : (max_depth cfg <= 0)%Z.

Definition single_inv (st : crawl_state) : Prop :=
  length (to_visit st) + length (pages st) <= 1.

Lemma single_inv_step st st' :
  records_inv w cfg st -> single_inv st -> crawl_step w cfg st = Next st' ->
  single_inv st'.
Proof.
  intros [_ _ Hfd] Hs Hstep. unfold single_inv in *.
  destruct (crawl_step_pages w cfg st st' Hstep)
    as (curr_url & depth & rest & Htv & Hrest & Hpages).
  rewrite Htv in Hfd, Hs. apply Forall_cons in Hfd as [[Hge _] _]. simpl in *.
  destruct Hrest as [->|Hlt]; [|lia].
  destruct Hpages as [->|(clean & body & _ & _ & _ & ->)]; [lia|].
  rewrite length_app. simpl. lia.
Qed.

Lemma single_inv_loop n st :
  records_inv w cfg st -> single_inv st -> single_inv (crawl_loop w cfg n st).1.
Proof.
  revert st. induction n as [|n IH]; intros st Hr Hs; simpl; [done|].
  destruct (crawl_step w cfg st) as [st'| |e] eqn:Hstep; simpl; [|done|done].
  apply IH; [by eapply records_inv_step|by eapply single_inv_step].
Qed.

End SinglePage.

(** X7.  A crawl with [max_depth <= 0], as the dispatcher starts for a
    direct PDF URL, follows no link: it outputs at most one page record and
    never queues anything beside the base URL. *)
Theorem single_page_crawl (w : world) (cfg : config) (n : nat) :
  (max_depth cfg <= 0)%Z ->
  length (to_visit (crawl_state_at w cfg n)) + length (pages (crawl_state_at w cfg n)) <= 1.
Proof.
  intros Hd. apply (single_inv_loop w cfg Hd).
  - apply records_inv_initial.
  - unfold single_inv. simpl. lia.
Qed.

Lemma single_page_crawl_witness :
  (max_depth Examples.pdf_config <= 0)%Z
  /\ length (to_visit (crawl_state_at Examples.two_paths Examples.pdf_config 3))
     + length (pages (crawl_state_at Examples.two_paths Examples.pdf_config 3)) <= 1.
Proof.
  assert (H : (max_depth Examples.pdf_config <= 0)%Z) by (simpl; lia).
  split; [exact H|].
  exact (single_page_crawl Examples.two_paths Examples.pdf_config 3 H).
Defined.

Section AppendOnly.

Variable w : world.
Variable cfg : config.

Lemma crawl_loop_add n m st :
  (crawl_loop w cfg (n + m) st).1 = (crawl_loop w cfg m (crawl_loop w cfg n st).1).1.
Proof.
  revert st. induction n as [|n IH]; intros st; simpl; [done|].
  destruct (crawl_step w cfg st) as [st'| |e] eqn:Hstep; simpl; [done| |].
  - destruct m; simpl; [done|]. by rewrite Hstep.
  - destruct m; simpl; [done|]. by rewrite Hstep.
Qed.

Lemma crawl_step_grows st st' :
  crawl_step w cfg st = Next st' ->
  pages st `prefix_of` pages st' /\ visited st ⊆ visited st'.
Proof.
  intros Hstep. split.
  - destruct (crawl_step_pages w cfg st st' Hstep) as (? & ? & ? & _ & _ & Hp).
    destruct Hp as [->|(clean & body & _ & _ & _ & ->)]; [done|]. by apply prefix_app_r.
  - destruct (crawl_step_spec w cfg st st' Hstep) as (? & ? & ? & _ & Hc).
    destruct Hc as [->|(clean & _ & _ & -> & _)]; [done|]. set_solver.
Qed.

Lemma crawl_loop_grows m st :
  pages st `prefix_of` pages (crawl_loop w cfg m st).1
  /\ visited st ⊆ visited (crawl_loop w cfg m st).1.
Proof.
  revert st. induction m as [|m IH]; intros st; simpl; [done|].
  destruct (crawl_step w cfg st) as [st'| |e] eqn:Hstep; simpl; [|done|done].
  destruct (crawl_step_grows st st' Hstep) as [Hp Hv].
  destruct (IH st') as [Hp' Hv']. split; by etrans.
Qed.

End AppendOnly.

(** X8.  The output is append-only: the page records present after [n]
    iterations are still there, unchanged and in the same positions, after
    any number of further iterations, and the Visited set only grows. *)
Theorem output_append_only (w : world) (cfg : config) (n m : nat) :
  pages (crawl_state_at w cfg n) `prefix_of` pages (crawl_state_at w cfg (n + m))
  /\ visited (crawl_state_at w cfg n) ⊆ visited (crawl_state_at w cfg (n + m)).
Proof.
  unfold crawl_state_at. rewrite crawl_loop_add. apply crawl_loop_grows.
Qed.

(** ** Escaping *)

Lemma escape_char_no_markup (c : ascii) :
  Forall (fun d => d <> "<"%char /\ d <> ">"%char /\ d <> "034"%char /\ d <> "'"%char)
         (escape_char c).
Proof.
  destruct c as [[] [] [] [] [] [] [] []]; vm_compute;
    repeat constructor; discriminate.
Qed.

(** X9.  Markup safety of [escape_xml]: its result holds no [<], no [>]
    and no quote character, whatever the text. *)
Theorem escape_xml_no_markup (text : str) :
  Forall (fun d => d <> "<"%char /\ d <> ">"%char /\ d <> "034"%char /\ d <> "'"%char)
         (escape_xml text).
Proof.
  unfold escape_xml, html_escape. induction text as [|c text IH]; simpl; [constructor|].
  apply Forall_app. split; [apply escape_char_no_markup|exact IH].
Qed.

Lemma escape_char_app_inj (c1 c2 : ascii) (r1 r2 : str) :
  escape_char c1 ++ r1 = escape_char c2 ++ r2 -> c1 = c2 /\ r1 = r2.
Proof.
  unfold escape_char.
  destruct (Ascii.eqb c1 "&") eqn:A1; [apply Ascii.eqb_eq in A1; subst|];
  [|destruct (Ascii.eqb c1 "<") eqn:B1; [apply Ascii.eqb_eq in B1; subst|];
    [|destruct (Ascii.eqb c1 ">") eqn:C1; [apply Ascii.eqb_eq in C1; subst|];
      [|destruct (Ascii.eqb c1 "034") eqn:D1; [apply Ascii.eqb_eq in D1; subst|];
        [|destruct (Ascii.eqb c1 "'") eqn:E1; [apply Ascii.eqb_eq in E1; subst|]]]]];
  (destruct (Ascii.eqb c2 "&") eqn:A2; [apply Ascii.eqb_eq in A2; subst|];
   [|destruct (Ascii.eqb c2 "<") eqn:B2; [apply Ascii.eqb_eq in B2; subst|];
     [|destruct (Ascii.eqb c2 ">") eqn:C2; [apply Ascii.eqb_eq in C2; subst|];
       [|destruct (Ascii.eqb c2 "034") eqn:D2; [apply Ascii.eqb_eq in D2; subst|];
         [|destruct (Ascii.eqb c2 "'") eqn:E2; [apply Ascii.eqb_eq in E2; subst|]]]]]);
  simpl; intros H; try discriminate H;
    try (injection H as H; subst; try discriminate; by split).
Qed.

(** X10.  [escape_xml] loses nothing: two different texts never have the
    same escaped form. *)
Theorem escape_xml_injective (text1 text2 : str) :
  escape_xml text1 = escape_xml text2 -> text1 = text2.
Proof.
  unfold escape_xml, html_escape. revert text2.
  induction text1 as [|c1 text1 IH]; intros [|c2 text2]; simpl.
  - done.
  - intros H. exfalso. revert H. unfold escape_char.
    repeat (match goal with |- context [if ?b then _ else _] => destruct b end);
      discriminate.
  - intros H. exfalso. revert H. unfold escape_char.
    repeat (match goal with |- context [if ?b then _ else _] => destruct b end);
      discriminate.
  - intros [-> H]%escape_char_app_inj. by rewrite (IH _ H).
Qed.

Lemma escape_xml_injective_witness :
  escape_xml (py "a<b") = escape_xml (py "a<b") /\ py "a<b" = py "a<b".
Proof.
  split; [reflexivity|]. exact (escape_xml_injective (py "a<b") (py "a<b") eq_refl).
Defined.

(** ** PDF results are never empty *)

Lemma join_cons_nonempty (sep p : str) (rest : list str) :
  p <> [] -> join sep (p :: rest) <> [].
Proof.
  intros Hp. simpl. destruct rest; [done|].
  destruct p; [done|]. discriminate.
Qed.

Section PdfNonempty.

Variable print : printer.
Variable source_description : str.

Lemma pdf_page_entry_nonempty i page entries :
  pdf_page_entry print source_description i page = Ok entries ->
  Forall (fun t => t <> []) entries.
Proof.
  unfold pdf_page_entry. destruct page as [text|e]; simpl.
  - destruct text as [|c text]; simpl.
    + destruct (print (blank_page_note source_description i)); simpl.
      * destruct (print (page_warning source_description i _)); [done|].
        intros [= <-]. by repeat constructor.
      * intros [= <-]. constructor.
    + intros [= <-]. by repeat constructor.
  - destruct (print (page_warning source_description i e)); [done|].
    intros [= <-]. by repeat constructor.
Qed.

Lemma pdf_text_list_from_nonempty k pages text_list :
  pdf_text_list_from print source_description k pages = Ok text_list ->
  Forall (fun t => t <> []) text_list.
Proof.
  revert k text_list. induction pages as [|page pages IH]; intros k text_list.
  - intros [= <-]. constructor.
  - cbn [pdf_text_list_from].
    destruct (pdf_page_entry print source_description k page) as [entries|] eqn:He;
      [|done].
    unfold rbind at 1.
    destruct (pdf_text_list_from print source_description (S k) pages) as [later|] eqn:Hl;
      [|done].
    intros [= <-]. apply Forall_app. split.
    + by eapply pdf_page_entry_nonempty.
    + by eapply IH.
Qed.

Lemma extracted_text_nonempty pages :
  _extract_text_from_pdf_object print source_description pages <> Ok [].
Proof.
  unfold _extract_text_from_pdf_object, extract_pdf, pdf_text_list.
  destruct pages as [|page pages].
  - by destruct (print _).
  - destruct (pdf_text_list_from print source_description 0 (page :: pages))
      as [[|t ts]|] eqn:Hl; [| |done].
    + by destruct (print _).
    + apply pdf_text_list_from_nonempty, Forall_cons in Hl as [Ht _].
      unfold rbind. intros [= H]. by apply (join_cons_nonempty (py " ") t ts).
Qed.

End PdfNonempty.

(** X11.  [_extract_text_from_pdf_object] and [process_web_pdf] never
    return the empty string: a caller always gets extracted text or an
    error marker. *)
Theorem pdf_result_nonempty (w : world) (url : str) (print : printer)
    (source_description : str) (pdf_pages : list page_outcome) :
  _extract_text_from_pdf_object print source_description pdf_pages <> Ok []
  /\ process_web_pdf w url <> Ok [].
Proof.
  split; [apply extracted_text_nonempty|].
  assert (Hh : forall e, processing_handler w url e <> Ok []).
  { intros e. unfold processing_handler. by destruct (rich_print w _). }
  unfold process_web_pdf. destruct (rich_print w _); [apply Hh|].
  unfold printing, rbind at 1.
  destruct (fetch_pdf w url) as [e|ct write reader]; [by destruct (rich_print w _)|].
  destruct (negb _).
  - by destruct (rich_print w _); [apply Hh|].
  - destruct write as [e|]; [apply Hh|]. unfold rbind at 1.
    destruct (rich_print w _); [apply Hh|]. unfold rbind at 1.
    destruct reader as [pdf_pages'|e]; [|apply Hh]. unfold rbind.
    pose proof (extracted_text_nonempty (rich_print w) url pdf_pages') as Hne.
    destruct (_extract_text_from_pdf_object _ _ _); [congruence|apply Hh].
Qed.

(** ** The scope tests *)



(** ** Normalization ignores the fragment *)

Section FragmentInsensitive.

Variable chk : str -> option str.

Implicit Types (s a b u f X F rest : str) (c d : ascii).

Lemma lstrip_if_fragment (P : ascii -> bool) u f :
  P "#"%char = false -> lstrip_if P (u ++ "#"%char :: f) = lstrip_if P u ++ "#"%char :: f.
Proof.
  intros HP. induction u as [|c u IH]; simpl; [by rewrite HP|].
  by destruct (P c).
Qed.

Lemma remove_char_app c a b : remove_char c (a ++ b) = remove_char c a ++ remove_char c b.
Proof. unfold remove_char. apply List.filter_app. Qed.

Lemma prepare_fragment u f :
  exists f', prepare (u ++ "#"%char :: f) = prepare u ++ "#"%char :: f'.
Proof.
  unfold prepare. rewrite lstrip_if_fragment by done.
  unfold _UNSAFE_URL_BYTES_TO_REMOVE. simpl fold_left.
  rewrite !remove_char_app. simpl. by eexists.
Qed.

Lemma lstrip_if_subseteq (P : ascii -> bool) s c : c ∈ lstrip_if P s -> c ∈ s.
Proof.
  induction s as [|d s IH]; simpl; [done|]. destruct (P d); [|done].
  intros H. right. by apply IH.
Qed.

Lemma prepare_subseteq u c : c ∈ prepare u -> c ∈ u.
Proof.
  unfold prepare, _UNSAFE_URL_BYTES_TO_REMOVE. simpl fold_left.
  intros H. repeat (apply remove_char_elem in H as [H _]).
  by eapply lstrip_if_subseteq.
Qed.

Lemma find_app_r a b c :
  c ∉ a -> find c (a ++ b) = (fun i => length a + i) <$> find c b.
Proof.
  induction a as [|d a IH]; simpl; intros Hc.
  - by destruct (find c b).
  - apply not_elem_of_cons in Hc as [Hne Hc].
    destruct (Ascii.eqb d c) eqn:E; [by apply Ascii.eqb_eq in E|].
    rewrite (IH Hc). by destruct (find c b).
Qed.

Lemma split_scheme_subseteq s sch rest c :
  split_scheme s = (sch, rest) -> c ∈ rest -> c ∈ s.
Proof.
  unfold split_scheme.
  destruct (find ":" s) as [i|]; [|by intros [= _ <-]].
  destruct s as [|c0 s0] eqn:Hs; [by intros [= _ <-]|]. rewrite <- Hs.
  destruct (_ && _); intros [= _ <-]; [|done]. apply subseteq_drop.
Qed.

Lemma split_scheme_fragment X F sch rest :
  "#"%char ∉ X -> split_scheme X = (sch, rest) ->
  split_scheme (X ++ "#"%char :: F) = (sch, rest ++ "#"%char :: F).
Proof.
  intros Hx. unfold split_scheme. destruct (find ":" X) as [i|] eqn:Hf.
  - destruct (find_Some _ _ _ Hf) as (HX & Hnc & Hlen).
    assert (Hfind : find ":" (X ++ "#"%char :: F) = Some i).
    { rewrite HX at 1. rewrite <- app_assoc. simpl.
      rewrite (find_app_cons _ _ _ Hnc). by rewrite Hlen. }
    rewrite Hfind. destruct X as [|c0 X0] eqn:HeqX; [done|]. rewrite <- HeqX in *.
    assert (Hi : S i <= length X).
    { rewrite HX at 1. rewrite length_app, Hlen. simpl. lia. }
    assert (Hcons : X ++ "#"%char :: F = c0 :: (X0 ++ "#"%char :: F)) by (by rewrite HeqX).
    rewrite Hcons at 1.
    rewrite (take_app_le X _ i) by lia. rewrite (drop_app_le X _ (S i)) by lia.
    destruct (_ && _); by intros [= <- <-].
  - apply find_None in Hf.
    assert (Hres : (sch, rest) = ([], X) -> split_scheme (X ++ "#"%char :: F)
                                          = (sch, rest ++ "#"%char :: F)).
    { intros [= -> ->]. unfold split_scheme. rewrite (find_app_r _ _ _ Hf). simpl.
      destruct (find ":" F) as [j|]; simpl.
      - assert (forallb (char_in scheme_chars)
                        (take (length X + S j) (X ++ "#"%char :: F)) = false) as Hall.
        { rewrite take_app_add. simpl. rewrite forallb_app. simpl.
          by rewrite andb_false_r. }
        revert Hall. generalize (X ++ "#"%char :: F). intros Y Hall.
        destruct Y as [|c0 Y0]; [done|]. by rewrite Hall, andb_false_r.
      - by destruct (X ++ "#"%char :: F). }
    intros H. apply Hres. revert H. by destruct X; intros [= <- <-].
Qed.

Lemma netloc_len_le s : netloc_len s <= length s.
Proof.
  induction s as [|c s IH]; [done|]. cbn [netloc_len length].
  destruct (char_in (py "/?#") c); lia.
Qed.

Lemma netloc_len_fragment s F : netloc_len (s ++ "#"%char :: F) = netloc_len s.
Proof.
  induction s as [|c s IH]; [done|]. cbn [app netloc_len].
  by destruct (char_in (py "/?#") c); [|rewrite IH].
Qed.

Lemma split_netloc_subseteq s n t c : split_netloc s = (n, t) -> c ∈ t -> c ∈ s.
Proof.
  unfold split_netloc, _splitnetloc. case_bool_decide; intros [= _ <-]; [|done].
  apply subseteq_drop.
Qed.

Lemma split_netloc_fragment rest F n t :
  split_netloc rest = (n, t) ->
  split_netloc (rest ++ "#"%char :: F) = (n, t ++ "#"%char :: F).
Proof.
  unfold split_netloc. case_bool_decide as H2.
  - destruct rest as [|a [|b r']]; try discriminate H2.
    injection H2 as -> ->.
    pose proof (splitnetloc_app (py "//") r') as E1.
    pose proof (splitnetloc_app (py "//") (r' ++ "#"%char :: F)) as E2.
    change (length (py "//")) with 2 in E1, E2.
    change (py "//" ++ r') with ("/"%char :: "/"%char :: r') in E1.
    change (py "//" ++ r' ++ "#"%char :: F)
      with (("/"%char :: "/"%char :: r') ++ "#"%char :: F) in E2.
    rewrite E1. intros [= <- <-].
    rewrite bool_decide_true by done. rewrite E2, netloc_len_fragment.
    pose proof (netloc_len_le r').
    by rewrite take_app_le, drop_app_le by lia.
  - intros [= <- <-]. rewrite bool_decide_false; [done|].
    destruct rest as [|a [|b r]].
    + discriminate.
    + intros [= _ ?].
    + exact H2.
Qed.

Lemma split_at_subseteq c s a b d : split_at c s = (a, b) -> d ∈ a -> d ∈ s.
Proof.
  intros [_ [(-> & _)| ->]]%split_at_spec Hd; [done|]. apply elem_of_app. by left.
Qed.

(** [urlsplit] of a URL followed by [#] and a fragment: the same
    components, and the fragment. *)
Lemma urlsplit_fragment u f :
  "#"%char ∉ u ->
  exists f',
    urlsplit chk (u ++ "#"%char :: f)
    = match urlsplit chk u with
      | Ok sr => Ok (mkSplitResult (s_scheme sr) (s_netloc sr) (s_path sr)
                                  (s_query sr) f')
      | Raise e => Raise e
      end.
Proof.
  intros Hu. destruct (prepare_fragment u f) as [f' Hprep]. exists f'.
  rewrite !urlsplit_steps, Hprep.
  assert (HX : "#"%char ∉ prepare u).
  { intros H. by apply Hu, prepare_subseteq. }
  destruct (split_scheme (prepare u)) as [sch rest] eqn:Hsch.
  rewrite (split_scheme_fragment _ f' _ _ HX Hsch).
  assert (Hrest : "#"%char ∉ rest).
  { intros H. by apply HX, (split_scheme_subseteq _ _ _ _ Hsch). }
  destruct (split_netloc rest) as [n t] eqn:Hn.
  rewrite (split_netloc_fragment _ f' _ _ Hn).
  assert (Ht : "#"%char ∉ t).
  { intros H. by apply Hrest, (split_netloc_subseteq _ _ _ _ Hn). }
  destruct (netloc_error chk n); [done|].
  rewrite (split_at_app _ _ _ Ht), (split_at_absent _ _ Ht).
  by destruct (split_at "?" t).
Qed.

End FragmentInsensitive.

(** X13.  Normalization ignores the fragment: a URL and the same URL
    followed by [#] and any fragment have the same normalized form (or
    fail in the same way), so both stand for one entry of the Visited
    set. *)
Theorem normalize_ignores_fragment (w : world) (u f : str) :
  "#"%char ∉ u -> normalize w (u ++ "#"%char :: f) = normalize w u.
Proof.
  intros Hu. unfold normalize. rewrite !urlparse_steps.
  destruct (urlsplit_fragment (check_bracketed_netloc w) u f Hu) as [f' ->].
  destruct (urlsplit (check_bracketed_netloc w) u) as [sr|e]; [|done].
  cbn [s_scheme s_path s_netloc s_query s_fragment].
  by destruct (split_params (s_scheme sr) (s_path sr)).
Qed.

Lemma normalize_ignores_fragment_witness :
  ("#"%char ∉ py "http://h/d?x=1")
  /\ normalize Examples.siblings (py "http://h/d?x=1" ++ "#"%char :: py "section-2")
     = normalize Examples.siblings (py "http://h/d?x=1").
Proof.
  assert (H : "#"%char ∉ py "http://h/d?x=1").
  { apply char_in_false. reflexivity. }
  split; [exact H|].
  exact (normalize_ignores_fragment Examples.siblings _ (py "section-2") H).
Defined.

(** ** Aliases *)

Section AliasLemmas.

Lemma lstrip_if_length p (s : str) : length (lstrip_if p s) <= length s.
Proof. induction s as [|c s IH]; simpl; [lia|]. destruct (p c); simpl; lia. Qed.

Lemma rstrip_if_length p (s : str) : length (rstrip_if p s) <= length s.
Proof.
  unfold rstrip_if. rewrite length_rev.
  etrans; [apply lstrip_if_length|]. by rewrite length_rev.
Qed.

(** A text that [strip] leaves alone starts with no white space. *)
Lemma strip_fixed_head c (t : str) : strip (c :: t) = c :: t -> isspace c = false.
Proof.
  intros H. destruct (isspace c) eqn:Hc; [|done]. exfalso.
  apply (f_equal length) in H. unfold strip in H. simpl in H. rewrite Hc in H.
  pose proof (rstrip_if_length isspace (lstrip_if isspace t)).
  pose proof (lstrip_if_length isspace t). lia.
Qed.

Lemma rstrip_if_snoc_true p (s : str) c :
  p c = true -> rstrip_if p (s ++ [c]) = rstrip_if p s.
Proof.
  intros H. unfold rstrip_if. rewrite rev_app_distr.
  change (rev [c] ++ rev s) with (c :: rev s). simpl. by rewrite H.
Qed.

(** The line written for a target gives the target back. *)
Lemma strip_line (t : str) : t <> [] -> strip t = t -> strip (t ++ [LF]) = t.
Proof.
  intros Ht H. destruct t as [|c t]; [done|].
  pose proof (strip_fixed_head _ _ H) as Hc.
  unfold strip in *. rewrite lstrip_if_cons_false in H by done.
  change ((c :: t) ++ [LF]) with (c :: (t ++ [LF])).
  rewrite lstrip_if_cons_false by done.
  change (c :: (t ++ [LF])) with ((c :: t) ++ [LF]).
  by rewrite rstrip_if_snoc_true.
Qed.

Lemma translate_newlines_id (s : str) : CR ∉ s -> translate_newlines s = s.
Proof.
  induction s as [|c s IH]; [done|]. intros H.
  apply not_elem_of_cons in H as [Hc Hs]. simpl.
  destruct (Ascii.eqb_spec c CR) as [->|_]; [done|]. by rewrite IH.
Qed.

Lemma lines_from_line (cur t rest : str) :
  LF ∉ t ->
  lines_from cur (t ++ LF :: rest) = (cur ++ t ++ [LF]) :: lines_from [] rest.
Proof.
  revert cur. induction t as [|c t IH]; intros cur H.
  - simpl. done.
  - apply not_elem_of_cons in H as [Hc Ht]. simpl.
    destruct (Ascii.eqb_spec c LF) as [->|_]; [done|].
    rewrite IH by done. by rewrite <- app_assoc.
Qed.

Lemma readlines_written (targets : list str) :
  Forall (fun t => LF ∉ t) targets ->
  readlines (concat (map (fun target => target ++ [LF]) targets))
  = map (fun target => target ++ [LF]) targets.
Proof.
  unfold readlines. induction 1 as [|t ts Ht _ IH]; [done|].
  simpl. rewrite <- app_assoc. simpl.
  rewrite lines_from_line by done. by rewrite IH.
Qed.

Lemma concat_lines_no_CR (targets : list str) :
  Forall (fun t => CR ∉ t) targets ->
  CR ∉ concat (map (fun target => target ++ [LF]) targets).
Proof.
  induction 1 as [|t ts Ht _ IH]; simpl; [by apply not_elem_of_nil|].
  rewrite !not_elem_of_app. split_and!; [done| |done].
  apply not_elem_of_cons. split; [done|apply not_elem_of_nil].
Qed.

(** A target as [load_alias] returns it: not empty, without white space
    around it. *)
Definition stripped (t : str) : Prop := t <> [] /\ strip t = t.

(** A target that the alias file stores as it is: moreover on one line. *)
Definition storable (t : str) : Prop := stripped t /\ (LF ∉ t) /\ (CR ∉ t).

Lemma read_targets_written (targets : list str) :
  Forall storable targets ->
  read_targets (concat (map (fun target => target ++ [LF]) targets)) = targets.
Proof.
  intros H. unfold read_targets.
  rewrite translate_newlines_id.
  2:{ apply concat_lines_no_CR. eapply Forall_impl; [exact H|]. by intros t (_ & _ & ?). }
  rewrite readlines_written.
  2:{ eapply Forall_impl; [exact H|]. by intros t (_ & ? & _). }
  induction H as [|t ts ([Ht Hs] & _) _ IH]; [done|].
  cbn [map List.filter]. rewrite strip_line by done. rewrite IH.
  by destruct t.
Qed.

Lemma alias_name_accepted (name : str) :
  is_potential_alias name = true ->
  existsb (fun c => char_in name c) [ "/"; "092"; "."; ":" ]%char = false
  /\ nonempty name = true.
Proof.
  unfold is_potential_alias, forbidden_chars. cbn [existsb].
  destruct (nonempty name); [|done].
  destruct (char_in name "."), (char_in name "/"), (char_in name ":"),
    (char_in name "092"); done.
Qed.

Lemma alias_name_rejected (name : str) :
  is_potential_alias name = false ->
  existsb (fun c => char_in name c) [ "/"; "092"; "."; ":" ]%char = true
  \/ nonempty name = false.
Proof.
  unfold is_potential_alias, forbidden_chars. cbn [existsb].
  destruct (nonempty name); [|by right].
  destruct (char_in name "."), (char_in name "/"), (char_in name ":"),
    (char_in name "092"); try done; by left.
Qed.

(** What [lstrip] and [rstrip] leave starts, and ends, with a character
    that is kept. *)
Lemma lstrip_if_head p (s : str) c t : lstrip_if p s = c :: t -> p c = false.
Proof.
  induction s as [|d s IH]; [done|]. simpl.
  destruct (p d) eqn:Hd; [done|]. by intros [= <- <-].
Qed.

Lemma lstrip_if_id p (s : str) c t : s = c :: t -> p c = false -> lstrip_if p s = s.
Proof. intros -> H. by apply lstrip_if_cons_false. Qed.

Lemma lstrip_if_suffix p (s : str) : exists w, s = w ++ lstrip_if p s.
Proof.
  induction s as [|d s [w IH]]; [by exists []|]. simpl. destruct (p d).
  - exists (d :: w). simpl. by f_equal.
  - by exists [].
Qed.

Lemma lstrip_if_idemp p (s : str) : lstrip_if p (lstrip_if p s) = lstrip_if p s.
Proof.
  destruct (lstrip_if p s) as [|c t] eqn:E; [done|].
  apply lstrip_if_cons_false. by eapply lstrip_if_head.
Qed.

Lemma rstrip_if_idemp p (s : str) : rstrip_if p (rstrip_if p s) = rstrip_if p s.
Proof. unfold rstrip_if. by rewrite rev_involutive, lstrip_if_idemp. Qed.

Lemma rstrip_if_prefix p (s : str) : exists w, s = rstrip_if p s ++ w.
Proof.
  unfold rstrip_if. destruct (lstrip_if_suffix p (rev s)) as [w Hw].
  exists (rev w). rewrite <- rev_app_distr, <- Hw. by rewrite rev_involutive.
Qed.

Lemma strip_idemp (s : str) : strip (strip s) = strip s.
Proof.
  unfold strip. set (a := lstrip_if isspace s).
  destruct (rstrip_if isspace a) as [|c r] eqn:Hr; [done|].
  assert (Hc : isspace c = false).
  { destruct (rstrip_if_prefix isspace a) as [w Hw]. rewrite Hr in Hw.
    subst a. simpl in Hw. by eapply lstrip_if_head. }
  rewrite lstrip_if_cons_false by done. rewrite <- Hr. apply rstrip_if_idemp.
Qed.

Lemma read_targets_stripped (content : str) : Forall stripped (read_targets content).
Proof.
  unfold read_targets. apply Forall_forall. intros t Ht.
  apply list_elem_of_In, List.filter_In in Ht as [Ht Hne].
  apply list_elem_of_In, list_elem_of_fmap in Ht as (l & -> & _).
  split; [by destruct (strip l)|apply strip_idemp].
Qed.

End AliasLemmas.

(** X14.  An alias that is added is read back as it was given.  After
    [--add-alias name target...] with a valid name whose file can be
    written and targets that are not empty, have no white space around
    them and no line break inside, the file of the alias is written
    (whether or not the message about it is then printed: an exception of
    that print is the only one that leaves [handle_add_alias]);
    [load_alias] gives exactly the targets, and so does
    [resolve_single_input_source] when its two messages are printed; every
    other input resolves as before. *)
Theorem alias_round_trip (fs : file_system) (print : printer) (name : str)
    (targets : list str) (dir : alias_dir) :
  is_potential_alias name = true -> NUL ∉ name -> write_error fs name = None ->
  targets <> [] -> Forall storable targets ->
  exists dir',
    handle_add_alias fs print (py "--add-alias" :: name :: targets) dir
    = (dir', print (created_message name targets))
    /\ load_alias print name dir' = Ok (Some targets)
    /\ (print (checking_message name) = None ->
        print (expanded_message name targets) = None ->
        resolve_single_input_source print name dir' = Ok targets)
    /\ forall other, other <> name ->
         resolve_single_input_source print other dir'
         = resolve_single_input_source print other dir.
Proof.
  intros Hname Hnul Hw Hne Hts.
  destruct (alias_name_accepted _ Hname) as [Hok Hnon].
  exists (<[name := concat (map (fun target => target ++ [LF]) targets)]> dir).
  assert (Hload : load_alias print name
                    (<[name := concat (map (fun target => target ++ [LF]) targets)]> dir)
                  = Ok (Some targets)).
  { unfold load_alias. rewrite lookup_insert_eq, read_targets_written by done.
    by destruct targets. }
  split_and!.
  - unfold handle_add_alias. cbn [list_index]. rewrite bool_decide_true by done.
    cbn [Nat.add lookup list_lookup drop]. rewrite Hok.
    destruct targets as [|t ts]; [done|].
    unfold write_alias_file.
    rewrite (proj2 (char_in_false _ _) Hnul), Hnon, Hw. done.
  - exact Hload.
  - intros Hchecking Hexpanded. unfold resolve_single_input_source.
    rewrite Hname, Hchecking, Hload. unfold printing, rbind.
    destruct targets as [|t ts]; [done|]. by rewrite Hexpanded.
  - intros other Hother. unfold resolve_single_input_source, load_alias.
    by rewrite lookup_insert_ne.
Qed.

Lemma alias_round_trip_witness :
  exists dir',
    handle_add_alias (mkFileSystem (fun _ => None) (py "[Errno 21] Is a directory"))
      Examples.rich_markup
      [py "--add-alias"; py "docs"; py "https://h/d"; py "notes.md"] ∅
    = (dir', Examples.rich_markup
               (created_message (py "docs") [py "https://h/d"; py "notes.md"]))
    /\ load_alias Examples.rich_markup (py "docs") dir'
       = Ok (Some [py "https://h/d"; py "notes.md"])
    /\ (Examples.rich_markup (checking_message (py "docs")) = None ->
        Examples.rich_markup
          (expanded_message (py "docs") [py "https://h/d"; py "notes.md"]) = None ->
        resolve_single_input_source Examples.rich_markup (py "docs") dir'
        = Ok [py "https://h/d"; py "notes.md"])
    /\ forall other, other <> py "docs" ->
         resolve_single_input_source Examples.rich_markup other dir'
         = resolve_single_input_source Examples.rich_markup other ∅.
Proof.
  apply (alias_round_trip (mkFileSystem (fun _ => None) (py "[Errno 21] Is a directory"))
           Examples.rich_markup (py "docs") [py "https://h/d"; py "notes.md"] ∅).
  - reflexivity.
  - apply char_in_false. reflexivity.
  - reflexivity.
  - discriminate.
  - repeat constructor; try discriminate; try reflexivity;
      apply char_in_false; reflexivity.
Defined.

(** X15.  Whatever the alias directory holds, what resolving an input
    returns is the input itself or targets that are not empty and have no
    white space around them. *)
Theorem resolved_targets_clean (print : printer) (source_string : str)
    (dir : alias_dir) (resolved : list str) :
  resolve_single_input_source print source_string dir = Ok resolved ->
  resolved = [source_string] \/ Forall stripped resolved.
Proof.
  unfold resolve_single_input_source, load_alias.
  destruct (is_potential_alias source_string); [|by intros [= <-]; left].
  destruct (print (checking_message source_string)); [done|]. unfold printing, rbind at 1.
  destruct (dir !! source_string) as [content|].
  - pose proof (read_targets_stripped content) as Hs.
    destruct (read_targets content) as [|t ts].
    + destruct (print _); [done|]. unfold rbind. destruct (print _); [done|].
      intros [= <-]. by right.
    + unfold rbind. destruct (print _); [done|]. intros [= <-]. by right.
  - unfold rbind. destruct (print _); [done|]. intros [= <-]. by left.
Qed.

Lemma resolved_targets_clean_witness :
  resolve_single_input_source Examples.rich_markup (py "docs")
    {[ py "docs" := py "  https://h/d  " ++ [LF; LF] ++ py "notes.md" ]}
  = Ok [py "https://h/d"; py "notes.md"]
  /\ ([py "https://h/d"; py "notes.md"] = [py "docs"]
      \/ Forall stripped [py "https://h/d"; py "notes.md"]).
Proof.
  assert (H : resolve_single_input_source Examples.rich_markup (py "docs")
                {[ py "docs" := py "  https://h/d  " ++ [LF; LF] ++ py "notes.md" ]}
              = Ok [py "https://h/d"; py "notes.md"]) by (vm_compute; reflexivity).
  split; [exact H|].
  exact (resolved_targets_clean Examples.rich_markup (py "docs") _ _ H).
Defined.

(** X16.  [--add-alias] writes alias names only: a file that it creates or
    changes has a name that [is_potential_alias] accepts, so that no file
    is written under the empty name or a name with [.], [/], [:] or a
    backslash; this holds also when the function ends with an
    exception. *)
Theorem add_alias_writes_alias_names (fs : file_system) (print : printer)
    (args : list str) (dir : alias_dir) (k : str) :
  (handle_add_alias fs print args dir).1 !! k <> dir !! k ->
  is_potential_alias k = true.
Proof.
  unfold handle_add_alias.
  destruct (list_index _ args) as [i|]; [|done].
  destruct (args !! (i + 1)) as [name|]; [|done].
  destruct (existsb _ _) eqn:Hex; [done|].
  destruct (drop _ args) as [|t ts]; [done|].
  unfold write_alias_file.
  destruct (char_in name NUL); [done|].
  destruct (nonempty name) eqn:Hnon; [|done].
  destruct (write_error fs name); [done|].
  cbn [fst]. intros Hk.
  destruct (decide (k = name)) as [->|Hne].
  - destruct (is_potential_alias name) eqn:E; [done|].
    destruct (alias_name_rejected _ E); congruence.
  - by rewrite lookup_insert_ne in Hk.
Qed.

Lemma add_alias_writes_alias_names_witness :
  is_potential_alias (py "docs") = true.
Proof.
  apply (add_alias_writes_alias_names
           (mkFileSystem (fun _ => None) (py "[Errno 21] Is a directory"))
           Examples.rich_markup
           [py "--add-alias"; py "docs"; py "notes.md"] ∅ (py "docs")).
  vm_compute. discriminate.
Defined.

(** ** GitHub URLs *)

Section SplitLemmas.

Lemma split_absent c (a : str) : c ∉ a -> split c a = [a].
Proof.
  induction a as [|d a IH]; [done|]. intros H.
  apply not_elem_of_cons in H as [Hd Ha]. simpl.
  destruct (Ascii.eqb_spec d c) as [->|_]; [done|]. by rewrite IH.
Qed.

Lemma split_app c (a b : str) : c ∉ a -> split c (a ++ c :: b) = a :: split c b.
Proof.
  induction a as [|d a IH]; intros H.
  - simpl. by rewrite Ascii.eqb_refl.
  - apply not_elem_of_cons in H as [Hd Ha]. simpl.
    destruct (Ascii.eqb_spec d c) as [->|_]; [done|]. by rewrite IH.
Qed.

Lemma join_split c (s : str) : join [c] (split c s) = s.
Proof.
  induction s as [|d s IH]; [done|]. simpl.
  destruct (Ascii.eqb_spec d c) as [->|_].
  - destruct (split c s) as [|w ws] eqn:E.
    + pose proof (split_length_pos c s) as H. rewrite E in H. simpl in H. lia.
    + cbn [join app]. rewrite <- IH. done.
  - destruct (split c s) as [|w ws] eqn:E.
    + pose proof (split_length_pos c s) as H. rewrite E in H. simpl in H. lia.
    + rewrite <- IH. by destruct ws.
Qed.

Lemma split_parts_free c (s : str) : Forall (fun p => c ∉ p) (split c s).
Proof.
  induction s as [|d s IH]; simpl.
  - constructor; [apply not_elem_of_nil|constructor].
  - destruct (Ascii.eqb_spec d c) as [->|Hd].
    + constructor; [apply not_elem_of_nil|done].
    + destruct (split c s) as [|w ws].
      * constructor; [|constructor].
        apply not_elem_of_cons. split; [done|apply not_elem_of_nil].
      * inversion IH as [|? ? Hw Hws]; subst. constructor; [|done].
        by apply not_elem_of_cons.
Qed.

Lemma join_snoc2 (sep : str) (l : list str) (x y : str) :
  l <> [] -> join sep (l ++ [x; y]) = join sep l ++ sep ++ x ++ sep ++ y.
Proof.
  induction l as [|p l IH]; [done|]. intros _.
  destruct l as [|q l].
  - done.
  - change ((p :: q :: l) ++ [x; y]) with (p :: (q :: l) ++ [x; y]).
    change (join sep (p :: (q :: l) ++ [x; y]))
      with (p ++ sep ++ join sep ((q :: l) ++ [x; y])).
    rewrite IH by done.
    change (join sep (p :: q :: l)) with (p ++ sep ++ join sep (q :: l)).
    by rewrite <- !app_assoc.
Qed.

Lemma startswith_prefix (s prefix : str) :
  startswith s prefix = true -> exists t, s = prefix ++ t.
Proof.
  revert s. induction prefix as [|p prefix IH]; intros s; [by exists s|].
  destruct s as [|c s]; [done|]. simpl.
  intros [Hc Hs]%andb_true_iff. apply Ascii.eqb_eq in Hc as ->.
  destruct (IH _ Hs) as [t ->]. by exists t.
Qed.

(** A text without a character of the separator is one piece. *)
Lemma split_on_absent (sep cur s : str) c :
  c ∈ sep -> c ∉ s -> split_on sep 0 cur s = [cur ++ s].
Proof.
  intros Hsep. revert cur. induction s as [|d s IH]; intros cur Hs.
  - by rewrite app_nil_r.
  - cbn [split_on].
    destruct (startswith (d :: s) sep) eqn:E.
    + apply startswith_prefix in E as [t E]. exfalso. apply Hs.
      rewrite E. apply elem_of_app. by left.
    + apply not_elem_of_cons in Hs as [_ Hs].
      rewrite IH by done. by rewrite <- app_assoc.
Qed.

End SplitLemmas.

(** X17.  A pull request URL and an issue URL of the usual form are
    accepted, and the API request is made for the owner, the repository
    and the number that the URL names. *)
Theorem github_item_url_accepted (owner repo number : str) :
  "/"%char ∉ owner -> "/"%char ∉ repo -> "/"%char ∉ number ->
  pull_request_urls (py "https://github.com/" ++ owner ++ py "/" ++ repo
                       ++ py "/pull/" ++ number)
  = Some (py "https://api.github.com/repos/" ++ owner ++ py "/" ++ repo
            ++ py "/pulls/" ++ number,
          py "https://github.com/" ++ owner ++ py "/" ++ repo)
  /\ issue_urls (py "https://github.com/" ++ owner ++ py "/" ++ repo
                   ++ py "/issues/" ++ number)
     = Some (py "https://api.github.com/repos/" ++ owner ++ py "/" ++ repo
               ++ py "/issues/" ++ number,
             py "https://github.com/" ++ owner ++ py "/" ++ repo).
Proof.
  intros Ho Hr Hn.
  assert (Hparts : forall kind : str, "/"%char ∉ kind ->
    split "/" (py "https://github.com/" ++ owner ++ py "/" ++ repo
                 ++ py "/" ++ kind ++ py "/" ++ number)
    = [py "https:"; []; py "github.com"; owner; repo; kind; number]).
  { intros kind Hk.
    change (py "https://github.com/" ++ owner ++ py "/" ++ repo
              ++ py "/" ++ kind ++ py "/" ++ number)
      with (py "https:" ++ "/"%char :: [] ++ "/"%char :: py "github.com"
              ++ "/"%char :: owner ++ "/"%char :: repo ++ "/"%char :: kind
              ++ "/"%char :: number).
    rewrite split_app by (apply char_in_false; reflexivity).
    rewrite split_app by apply not_elem_of_nil.
    rewrite split_app by (apply char_in_false; reflexivity).
    rewrite !split_app by done. by rewrite split_absent. }
  split.
  - unfold pull_request_urls, github_item_urls.
    change (py "https://github.com/" ++ owner ++ py "/" ++ repo
              ++ py "/pull/" ++ number)
      with (py "https://github.com/" ++ owner ++ py "/" ++ repo
              ++ py "/" ++ py "pull" ++ py "/" ++ number).
    rewrite Hparts by (apply char_in_false; reflexivity).
    cbn [length Nat.ltb Nat.leb before_last_part rev app orb].
    rewrite bool_decide_true by done.
    cbn [negb lookup list_lookup default last_part last id].
    reflexivity.
  - unfold issue_urls, github_item_urls.
    change (py "https://github.com/" ++ owner ++ py "/" ++ repo
              ++ py "/issues/" ++ number)
      with (py "https://github.com/" ++ owner ++ py "/" ++ repo
              ++ py "/" ++ py "issues" ++ py "/" ++ number).
    rewrite Hparts by (apply char_in_false; reflexivity).
    cbn [length Nat.ltb Nat.leb before_last_part rev app orb].
    rewrite bool_decide_true by done.
    cbn [negb lookup list_lookup default last_part last id].
    reflexivity.
Qed.

Lemma github_item_url_accepted_witness :
  pull_request_urls (py "https://github.com/" ++ py "jimmc414" ++ py "/"
                       ++ py "onefilellm" ++ py "/pull/" ++ py "12")
  = Some (py "https://api.github.com/repos/" ++ py "jimmc414" ++ py "/"
            ++ py "onefilellm" ++ py "/pulls/" ++ py "12",
          py "https://github.com/" ++ py "jimmc414" ++ py "/" ++ py "onefilellm")
  /\ issue_urls (py "https://github.com/" ++ py "jimmc414" ++ py "/"
                   ++ py "onefilellm" ++ py "/issues/" ++ py "12")
     = Some (py "https://api.github.com/repos/" ++ py "jimmc414" ++ py "/"
               ++ py "onefilellm" ++ py "/issues/" ++ py "12",
             py "https://github.com/" ++ py "jimmc414" ++ py "/" ++ py "onefilellm").
Proof.
  apply (github_item_url_accepted (py "jimmc414") (py "onefilellm") (py "12"));
    apply char_in_false; reflexivity.
Defined.

(** X18.  What [process_github_pull_request] accepts ends in [/pull/] and
    a last part without [/]: every other URL is answered with the
    [Invalid URL format] block, and no request is made for it. *)
Theorem pull_request_url_shape (url : str) (r : str * str) :
  pull_request_urls url = Some r ->
  exists pre number,
    url = pre ++ py "/pull/" ++ number /\ ("/"%char ∉ number)
    /\ r.1 = py "https://api.github.com/repos/"
               ++ default [] (split "/" url !! 3) ++ py "/"
               ++ default [] (split "/" url !! 4) ++ py "/pulls/" ++ number.
Proof.
  unfold pull_request_urls, github_item_urls.
  pose proof (join_split "/" url) as Hjoin.
  pose proof (split_parts_free "/" url) as Hfree.
  set (parts := split "/" url) in *. clearbody parts.
  destruct (length parts <? 7) eqn:Hlen; [done|]. apply Nat.ltb_ge in Hlen.
  case_bool_decide as Hkind; [|done]. cbn [orb negb]. intros [= <-].
  unfold before_last_part in Hkind.
  destruct (rev parts) as [|number [|kind rest]] eqn:Hrev; try done.
  injection Hkind as ->.
  assert (Hparts : parts = rev rest ++ [py "pull"; number]).
  { rewrite <- (rev_involutive parts), Hrev. simpl. by rewrite <- app_assoc. }
  assert (Hrest : rev rest <> []).
  { intros E. rewrite Hparts, E in Hlen. simpl in Hlen. lia. }
  exists (join (py "/") (rev rest)), number. split_and!.
  - rewrite <- Hjoin, Hparts.
    change ["/"%char] with (py "/").
    rewrite join_snoc2 by done. reflexivity.
  - rewrite Hparts in Hfree. apply Forall_app in Hfree as [_ Hfree].
    apply Forall_cons_1 in Hfree as [_ Hfree].
    by apply Forall_cons_1 in Hfree as [? _].
  - cbn [fst]. unfold last_part.
    rewrite Hparts at 3. rewrite last_app. reflexivity.
Qed.

Lemma pull_request_url_shape_witness :
  exists pre number,
    py "https://github.com/o/r/pull/7" = pre ++ py "/pull/" ++ number
    /\ ("/"%char ∉ number)
    /\ (py "https://api.github.com/repos/o/r/pulls/7", py "https://github.com/o/r").1
       = py "https://api.github.com/repos/"
           ++ default [] (split "/" (py "https://github.com/o/r/pull/7") !! 3) ++ py "/"
           ++ default [] (split "/" (py "https://github.com/o/r/pull/7") !! 4)
           ++ py "/pulls/" ++ number.
Proof.
  apply (pull_request_url_shape (py "https://github.com/o/r/pull/7")
           (py "https://api.github.com/repos/o/r/pulls/7", py "https://github.com/o/r")).
  reflexivity.
Defined.

(** X19.  The contents request of [process_github_repo]: for a repository
    URL it asks for [owner/repo/contents], and for a [tree] URL with a
    branch and a subdirectory for that subdirectory with the branch as
    [ref]. *)
Theorem contents_url_of_repo (owner repo branch sub : str) :
  "/"%char ∉ owner -> "/"%char ∉ repo -> "/"%char ∉ branch ->
  ":"%char ∉ owner -> ":"%char ∉ repo -> ":"%char ∉ branch -> ":"%char ∉ sub ->
  branch <> [] ->
  contents_url (py "https://github.com/" ++ owner ++ py "/" ++ repo)
  = py "https://api.github.com/repos/" ++ owner ++ py "/" ++ repo ++ py "/contents"
  /\ contents_url (py "https://github.com/" ++ owner ++ py "/" ++ repo
                     ++ py "/tree/" ++ branch ++ py "/" ++ sub)
     = py "https://api.github.com/repos/" ++ owner ++ py "/" ++ repo ++ py "/contents"
         ++ (if nonempty sub then py "/" ++ sub else [])
         ++ py "?ref=" ++ branch.
Proof.
  intros Ho Hr Hb Hoc Hrc Hbc Hsc Hbne.
  assert (Htail : forall tail : str, ":"%char ∉ tail ->
    last_part (split_str (py "https://github.com/") (py "https://github.com/" ++ tail))
    = tail).
  { intros tail Ht. unfold split_str.
    change (py "https://github.com/") with
      ["h";"t";"t";"p";"s";":";"/";"/";"g";"i";"t";"h";"u";"b";".";"c";"o";"m";"/"]%char.
    cbn [app split_on startswith Ascii.eqb Bool.eqb andb length Nat.sub].
    replace (startswith tail []) with true by (by destruct tail).
    rewrite (split_on_absent _ [] tail ":"%char); [reflexivity| |done].
    apply char_in_true. reflexivity. }
  split.
  - unfold contents_url. rewrite Htail.
    2:{ rewrite !not_elem_of_app. split_and!; [done| |done].
        apply char_in_false. reflexivity. }
    change (owner ++ py "/" ++ repo) with (owner ++ "/"%char :: repo).
    rewrite split_app, split_absent by done.
    cbn [take join length Nat.ltb Nat.leb andb nonempty].
    rewrite <- !app_assoc. reflexivity.
  - unfold contents_url. rewrite Htail.
    2:{ rewrite !not_elem_of_app. split_and!; try done;
          apply char_in_false; reflexivity. }
    change (owner ++ py "/" ++ repo ++ py "/tree/" ++ branch ++ py "/" ++ sub)
      with (owner ++ "/"%char :: repo ++ "/"%char :: py "tree" ++ "/"%char :: branch
              ++ "/"%char :: sub).
    rewrite !split_app by (done || (apply char_in_false; reflexivity)).
    pose proof (split_length_pos "/" sub) as Hlen.
    pose proof (join_split "/" sub) as Hjoin.
    cbn [take lookup list_lookup drop default]. rewrite !drop_0.
    change (join (py "/") (split "/" sub)) with (join ["/"%char] (split "/" sub)).
    rewrite Hjoin.
    destruct (split "/" sub) as [|w ws]; [simpl in Hlen; lia|].
    cbn [join length Nat.ltb Nat.leb andb].
    rewrite bool_decide_true by done. cbn [andb].
    destruct branch as [|b0 branch]; [done|]. cbn [nonempty].
    destruct sub; cbn [nonempty]; rewrite <- ?app_assoc; reflexivity.
Qed.

Lemma contents_url_of_repo_witness :
  contents_url (py "https://github.com/" ++ py "jimmc414" ++ py "/" ++ py "onefilellm")
  = py "https://api.github.com/repos/" ++ py "jimmc414" ++ py "/" ++ py "onefilellm"
      ++ py "/contents"
  /\ contents_url (py "https://github.com/" ++ py "jimmc414" ++ py "/" ++ py "onefilellm"
                     ++ py "/tree/" ++ py "main" ++ py "/" ++ py "docs/api")
     = py "https://api.github.com/repos/" ++ py "jimmc414" ++ py "/" ++ py "onefilellm"
         ++ py "/contents"
         ++ (if nonempty (py "docs/api") then py "/" ++ py "docs/api" else [])
         ++ py "?ref=" ++ py "main".
Proof.
  apply (contents_url_of_repo (py "jimmc414") (py "onefilellm") (py "main") (py "docs/api"));
    try (apply char_in_false; reflexivity).
  discriminate.
Defined.
